(** * The decision ledger's hash chain: [verify_chain] of the dashboards

    The four Streamlit dashboards of the repository ([db.py], [E1.py],
    [E2.py], [E3.py]) load the ledger, one JSON object per line, and run
    [verify_chain] over it.  This development embeds that function, the
    library calls it makes ([dict.copy], [dict.pop], [json.dumps],
    [hashlib.sha256]) and the few script lines around its call, and proves
    the properties the specification states about the chain. *)

From Stdlib Require Import ZArith List String Ascii Bool Lia Permutation.
From Stdlib Require Import Sorted DecimalString OrdersEx.
From Stdlib Require Init.Byte.
Import ListNotations.

Set Warnings "-register-all".

Local Open Scope string_scope.
Local Open Scope list_scope.

(* ================================================================== *)
(** * Library model: [hashlib.sha256(data).hexdigest()]

    SHA-256 as FIPS 180-4 defines it.  A 32-bit word is a [Z] in
    [0, 2^32); every addition wraps explicitly. *)

Module Sha256.
Local Open Scope Z_scope.

Definition byte := Byte.byte.

Definition wrap (x : Z) : Z := Z.land x 0xffffffff.
Definition add32 (x y : Z) : Z := wrap (x + y).
Definition not32 (x : Z) : Z := Z.lxor x 0xffffffff.
Definition rotr (n x : Z) : Z :=
  Z.lor (Z.shiftr x n) (wrap (Z.shiftl x (32 - n))).
Definition shr (n x : Z) : Z := Z.shiftr x n.

Definition Ch (x y z : Z) : Z :=
  Z.lxor (Z.land x y) (Z.land (not32 x) z).
Definition Maj (x y z : Z) : Z :=
  Z.lxor (Z.lxor (Z.land x y) (Z.land x z)) (Z.land y z).
Definition bsig0 (x : Z) : Z :=
  Z.lxor (Z.lxor (rotr 2 x) (rotr 13 x)) (rotr 22 x).
Definition bsig1 (x : Z) : Z :=
  Z.lxor (Z.lxor (rotr 6 x) (rotr 11 x)) (rotr 25 x).
Definition ssig0 (x : Z) : Z :=
  Z.lxor (Z.lxor (rotr 7 x) (rotr 18 x)) (shr 3 x).
Definition ssig1 (x : Z) : Z :=
  Z.lxor (Z.lxor (rotr 17 x) (rotr 19 x)) (shr 10 x).

(** The first [n] primes counted from [from], by trial division. *)
Definition is_prime (n : Z) : bool :=
  forallb (fun d => negb (n mod d =? 0)) (map Z.of_nat (seq 2 (Z.to_nat n - 2))).

Definition primes (count : nat) : list Z :=
  firstn count (filter is_prime (map Z.of_nat (seq 2 310))).

(** The largest [r] with [r ^ 3 <= n], found bit by bit from bit
    [bits - 1] down. *)
Fixpoint cube_root (bits : nat) (n r : Z) : Z :=
  match bits with
  | O => r
  | S b =>
      let r' := r + Z.shiftl 1 (Z.of_nat b) in
      cube_root b n (if r' * r' * r' <=? n then r' else r)
  end.

(** The round constants (FIPS 180-4, 4.2.2): the first 32 bits of the
    fractional parts of the cube roots of the first 64 primes. *)
Definition K : list Z :=
  Eval vm_compute in
    map (fun p => wrap (cube_root 40 (Z.shiftl p 96) 0)) (primes 64).

(** The eight working variables, and equally the eight words of the
    running hash value. *)
Record regs : Set := Regs
  { ra : Z; rb : Z; rc : Z; rd : Z; re : Z; rf : Z; rg : Z; rh : Z }.

(** The initial hash value (5.3.3): the first 32 bits of the fractional
    parts of the square roots of the first 8 primes. *)
Definition frac_sqrt (p : Z) : Z := wrap (Z.sqrt (Z.shiftl p 64)).

Definition H0 : regs :=
  Eval vm_compute in
    Regs (frac_sqrt 2) (frac_sqrt 3) (frac_sqrt 5) (frac_sqrt 7)
         (frac_sqrt 11) (frac_sqrt 13) (frac_sqrt 17) (frac_sqrt 19).

Definition Z_of_byte (b : byte) : Z := Z.of_N (Byte.to_N b).

Definition byte_of_Z (z : Z) : byte :=
  match Byte.of_N (Z.to_N (Z.land z 0xff)) with
  | Some b => b
  | None => Byte.x00
  end.

(** Big-endian bytes of the low [8 * n] bits of [z]. *)
Fixpoint be_bytes (n : nat) (z : Z) : list byte :=
  match n with
  | O => []
  | S m => byte_of_Z (Z.shiftr z (8 * Z.of_nat m)) :: be_bytes m z
  end.

(** Padding (FIPS 180-4, 5.1.1): a 1 bit, zero bits up to 56 mod 64 bytes,
    then the message length in bits as a 64-bit big-endian integer. *)
Definition pad (msg : list byte) : list byte :=
  let len := Z.of_nat (List.length msg) in
  msg ++ [Byte.x80]
      ++ repeat Byte.x00 (Z.to_nat ((55 - len) mod 64))
      ++ be_bytes 8 (8 * len).

Fixpoint words_of_bytes (bs : list byte) : list Z :=
  match bs with
  | b0 :: b1 :: b2 :: b3 :: rest =>
      Z.lor (Z.shiftl (Z_of_byte b0) 24)
        (Z.lor (Z.shiftl (Z_of_byte b1) 16)
           (Z.lor (Z.shiftl (Z_of_byte b2) 8) (Z_of_byte b3)))
      :: words_of_bytes rest
  | _ => []
  end.

(** Message schedule (6.2.2 step 1): [w] holds the sixteen most recent
    words, oldest first; each round emits one more. *)
Fixpoint schedule (rounds : nat) (w : list Z) : list Z :=
  match rounds with
  | O => []
  | S r =>
      match w with
      | [] => []
      | w0 :: tl =>
          let nxt :=
            add32 (add32 (ssig1 (nth 14 w 0)) (nth 9 w 0))
                  (add32 (ssig0 (nth 1 w 0)) w0) in
          w0 :: schedule r (tl ++ [nxt])
      end
  end.

Definition round (s : regs) (kw : Z * Z) : regs :=
  let (k, w) := kw in
  let t1 :=
    add32 (add32 (add32 (add32 (rh s) (bsig1 (re s)))
                        (Ch (re s) (rf s) (rg s))) k) w in
  let t2 := add32 (bsig0 (ra s)) (Maj (ra s) (rb s) (rc s)) in
  Regs (add32 t1 t2) (ra s) (rb s) (rc s)
       (add32 (rd s) t1) (re s) (rf s) (rg s).

Definition compress (h : regs) (block : list Z) : regs :=
  let s := fold_left round (combine K (schedule 64 block)) h in
  Regs (add32 (ra h) (ra s)) (add32 (rb h) (rb s))
       (add32 (rc h) (rc s)) (add32 (rd h) (rd s))
       (add32 (re h) (re s)) (add32 (rf h) (rf s))
       (add32 (rg h) (rg s)) (add32 (rh h) (rh s)).

(** The padded message, sixteen words at a time. *)
Fixpoint blocks (count : nat) (ws : list Z) (h : regs) : regs :=
  match count with
  | O => h
  | S c => blocks c (skipn 16 ws) (compress h (firstn 16 ws))
  end.

Definition sha256 (msg : list byte) : regs :=
  let ws := words_of_bytes (pad msg) in
  blocks (List.length ws / 16) ws H0.

Definition hex_digit (z : Z) : ascii :=
  let n := Z.land z 0xf in
  if n <? 10 then ascii_of_N (Z.to_N (48 + n))
  else ascii_of_N (Z.to_N (87 + n)).

(** One word as eight lower-case hex digits. *)
Definition hex8 (w : Z) (k : string) : string :=
  String (hex_digit (Z.shiftr w 28)) (String (hex_digit (Z.shiftr w 24))
  (String (hex_digit (Z.shiftr w 20)) (String (hex_digit (Z.shiftr w 16))
  (String (hex_digit (Z.shiftr w 12)) (String (hex_digit (Z.shiftr w 8))
  (String (hex_digit (Z.shiftr w 4)) (String (hex_digit w) k))))))).

Definition hex_of_regs (h : regs) : string :=
  hex8 (ra h) (hex8 (rb h) (hex8 (rc h) (hex8 (rd h)
  (hex8 (re h) (hex8 (rf h) (hex8 (rg h) (hex8 (rh h) ""))))))).

Definition hexdigest (msg : list byte) : string := hex_of_regs (sha256 msg).

End Sha256.

(* ================================================================== *)
(** * Data model: the values [json.loads] produces

    A ledger line is parsed by [json.loads]; the values it can build are
    [None], booleans, integers, floats, strings, lists and dictionaries
    with string keys.

    - A Python [str] is a Rocq [string], one character per code point;
      code points above 255 are outside the model.
    - A Python [int] is a [Z].
    - A float is carried as the text [json.dumps] prints for it
      ([float.__repr__] for a finite value, [NaN], [Infinity],
      [-Infinity] otherwise): printing is the only thing the chain does
      with a float.
    - A [dict] keeps its items in insertion order, so it is an association
      list; a dictionary that Python can build has no key twice. *)

Inductive json : Type :=
| JNull
| JBool (b : bool)
| JInt (n : Z)
| JFloat (repr : string)
| JStr (s : string)
| JList (items : list json)
| JObj (fields : list (string * json)).

Definition dict : Type := list (string * json).

Definition keys (d : dict) : list string := map fst d.

(** [d[k]], [None] standing for the [KeyError]. *)
Fixpoint dict_get (k : string) (d : dict) : option json :=
  match d with
  | [] => None
  | (k', v) :: rest => if String.eqb k k' then Some v else dict_get k rest
  end.

(** The items left by [del d[k]]. *)
Fixpoint dict_remove (k : string) (d : dict) : dict :=
  match d with
  | [] => []
  | (k', v) :: rest =>
      if String.eqb k k' then rest else (k', v) :: dict_remove k rest
  end.

(** [d[k] = v]: an existing key keeps its place, a new key goes last. *)
Fixpoint dict_set (k : string) (v : json) (d : dict) : dict :=
  match d with
  | [] => [(k, v)]
  | (k', v') :: rest =>
      if String.eqb k k' then (k', v) :: rest
      else (k', v') :: dict_set k v rest
  end.

(* ================================================================== *)
(** * Library model: [json.dumps(o, sort_keys=True, separators=(",", ":"))]

    Defaults in force: [ensure_ascii=True], [allow_nan=True], no indent. *)

Module Json.

Definition quote : ascii := ascii_of_nat 34.
Definition backslash : ascii := ascii_of_nat 92.

Definition hex_nibble (n : N) : ascii :=
  if (n <? 10)%N then ascii_of_N (48 + n) else ascii_of_N (87 + n).

(** ['\\u{0:04x}'.format(n)] for [n < 0x10000]. *)
Definition u_escape (n : N) : string :=
  String backslash (String "u"
    (String (hex_nibble ((n / 4096) mod 16)) (String (hex_nibble ((n / 256) mod 16))
    (String (hex_nibble ((n / 16) mod 16)) (String (hex_nibble (n mod 16)) ""))))).

(** [ESCAPE_ASCII] matches the backslash, the quote and everything outside
    [' '..'~']; [ESCAPE_DCT] gives the short escapes. *)
Definition escape_char (c : ascii) : string :=
  let n := N_of_ascii c in
  if (n =? 92)%N then String backslash (String backslash "")
  else if (n =? 34)%N then String backslash (String quote "")
  else if (n =? 8)%N then String backslash "b"
  else if (n =? 12)%N then String backslash "f"
  else if (n =? 10)%N then String backslash "n"
  else if (n =? 13)%N then String backslash "r"
  else if (n =? 9)%N then String backslash "t"
  else if ((32 <=? n) && (n <=? 126))%N then String c ""
  else u_escape n.

Fixpoint escape (s : string) : string :=
  match s with
  | EmptyString => ""
  | String c rest => escape_char c ++ escape rest
  end.

(** [encode_basestring_ascii] *)
Definition encode_basestring_ascii (s : string) : string :=
  String quote (escape s ++ String quote "").

(** [int.__repr__] *)
Definition int_repr (n : Z) : string := NilZero.string_of_int (Z.to_int n).

Section SortItems.
Context {A : Type}.

(** [sorted(dct.items())]: the items are pairs, compared on the key
    first; with every key different the value is never looked at.
    Python's sort is stable, and so is this insertion sort. *)
Fixpoint insert_item (x : string * A) (l : list (string * A))
  : list (string * A) :=
  match l with
  | [] => [x]
  | y :: rest =>
      if String.leb (fst x) (fst y) then x :: y :: rest
      else y :: insert_item x rest
  end.

Fixpoint sort_items (l : list (string * A)) : list (string * A) :=
  match l with
  | [] => []
  | x :: rest => insert_item x (sort_items rest)
  end.
End SortItems.

(** One item of an object: key, [key_separator], value. *)
Definition item_text (kv : string * string) : string :=
  encode_basestring_ascii (fst kv) ++ ":" ++ snd kv.

(** The encoder.  For a dictionary the values are rendered first and the
    rendered items sorted by key afterwards; [dumps_dict_sorted_first]
    below shows this is the text obtained by sorting the items first, as
    the library does. *)
Fixpoint dumps (o : json) : string :=
  match o with
  | JNull => "null"
  | JBool true => "true"
  | JBool false => "false"
  | JInt n => int_repr n
  | JFloat repr => repr
  | JStr s => encode_basestring_ascii s
  | JList items => "[" ++ String.concat "," (map dumps items) ++ "]"
  | JObj fields =>
      "{" ++ String.concat ","
               (map item_text
                  (sort_items (map (fun kv => (fst kv, dumps (snd kv))) fields)))
          ++ "}"
  end.

End Json.

(** [json.dumps(d, sort_keys=True, separators=(",", ":"))] for a [dict]. *)
Definition json_dumps (d : dict) : string := Json.dumps (JObj d).

(** [s.encode("utf-8")] for code points below 256: one byte below 128,
    two bytes from there on. *)
Definition utf8_char (c : ascii) : list Byte.byte :=
  let n := Z.of_N (N_of_ascii c) in
  if (n <? 128)%Z then [byte_of_ascii c]
  else [Sha256.byte_of_Z (192 + Z.shiftr n 6);
        Sha256.byte_of_Z (128 + Z.land n 63)].

Fixpoint encode_utf8 (s : string) : list Byte.byte :=
  match s with
  | EmptyString => []
  | String c rest => utf8_char c ++ encode_utf8 rest
  end.

(** [hashlib.sha256(s.encode("utf-8")).hexdigest()] *)
Definition sha256_hexdigest (s : string) : string :=
  Sha256.hexdigest (encode_utf8 s).

(* ================================================================== *)
(** * The store: dictionaries are objects

    [rec.copy()] makes a new dictionary and [rec_copy.pop("hash")] changes
    that one in place, so the dictionaries live in a store and the list
    [records] holds references to them; the same dictionary may be in the
    list more than once.  The values inside a dictionary are never changed
    by [verify_chain] and are kept by value. *)

Definition loc : Type := nat.

(** Objects in the order they were created. *)
Definition store : Type := list dict.

(** The exception that a dictionary of loaded values can bring about in
    [verify_chain]; see [load] for what is left out. *)
Inductive exn : Type :=
| KeyError (key : string).

(** How a call ends.  [Dangling] is no Python behaviour: it marks a
    reference that the store does not hold. *)
Inductive outcome (A : Type) : Type :=
| Ret (a : A)
| Raise (e : exn)
| Dangling (l : loc).

Arguments Ret {A} a.
Arguments Raise {A} e.
Arguments Dangling {A} l.

(** A computation reads and changes the store; an exception leaves the
    store as it is at the [raise]. *)
Definition M (A : Type) : Type := store -> outcome A * store.

Definition ret {A : Type} (a : A) : M A := fun h => (Ret a, h).

Definition raise {A : Type} (e : exn) : M A := fun h => (Raise e, h).

Definition bind {A B : Type} (c : M A) (k : A -> M B) : M B :=
  fun h =>
    match c h with
    | (Ret a, h') => k a h'
    | (Raise e, h') => (Raise e, h')
    | (Dangling l, h') => (Dangling l, h')
    end.

Declare Scope py_scope.
Delimit Scope py_scope with py.
Notation "x <- c ;; k" := (bind c (fun x => k))
  (at level 61, c at next level, right associativity) : py_scope.
Notation "c ;; k" := (bind c (fun _ => k))
  (at level 61, right associativity) : py_scope.
Local Open Scope py_scope.

Fixpoint update (l : loc) (d : dict) (h : store) : store :=
  match h, l with
  | [], _ => []
  | _ :: rest, O => d :: rest
  | d0 :: rest, S l' => d0 :: update l' d rest
  end.

Definition deref (l : loc) : M dict :=
  fun h =>
    match nth_error h l with
    | Some d => (Ret d, h)
    | None => (Dangling l, h)
    end.

Definition alloc (d : dict) : M loc :=
  fun h => (Ret (List.length h), h ++ [d]).

Definition assign (l : loc) (d : dict) : M unit :=
  fun h => (Ret tt, update l d h).

Module Py.

(** [o.copy()]: a new dictionary with the same items. *)
Definition copy (o : loc) : M loc :=
  d <- deref o ;; alloc d.

(** [o.pop(k)]: removes the key from [o] itself and returns its value;
    [KeyError] when the key is not there. *)
Definition pop (o : loc) (k : string) : M json :=
  d <- deref o ;;
  match dict_get k d with
  | Some v => assign o (dict_remove k d) ;; ret v
  | None => raise (KeyError k)
  end.

(** [o[k]] *)
Definition getitem (o : loc) (k : string) : M json :=
  d <- deref o ;;
  match dict_get k d with
  | Some v => ret v
  | None => raise (KeyError k)
  end.

(** [json.dumps(o, sort_keys=True, separators=(",", ":"))] *)
Definition dumps (o : loc) : M string :=
  d <- deref o ;; ret (json_dumps d).

(** [x != s] for a loaded value [x] and a [str] [s]: a value of another
    type is never equal to a string. *)
Definition ne_str (x : json) (s : string) : bool :=
  match x with
  | JStr t => negb (String.eqb t s)
  | _ => true
  end.

(** [s * n] *)
Fixpoint str_mul (s : string) (n : nat) : string :=
  match n with
  | O => ""
  | S m => s ++ str_mul s m
  end.

End Py.

(** ["0"*64], the value [prev_hash] starts from in every dashboard. *)
Definition genesis : string := Py.str_mul "0" 64.

(* ================================================================== *)
(** * [verify_chain], file by file

    The [for] loop is the recursion on [records]; the loop variable
    [prev_hash] is the first argument.  [prev_hash = stored_hash] is
    reached only when [stored_hash] equals the string [calc_hash], so
    [prev_hash] is a [str] throughout. *)

Module db.

(** [db.py], lines 50-62. *)
Fixpoint verify_loop (prev_hash : string) (records : list loc) : M bool :=
  match records with
  | [] => ret true
  | rec :: rest =>
      rec_copy <- Py.copy rec ;;
      stored_hash <- Py.pop rec_copy "hash" ;;
      payload <- Py.dumps rec_copy ;;
      let calc_hash := sha256_hexdigest (prev_hash ++ payload) in
      match stored_hash with
      | JStr stored =>
          if negb (String.eqb calc_hash stored) then ret false
          else
            linked <- Py.getitem rec_copy "prev_hash" ;;
            if Py.ne_str linked prev_hash then ret false
            else verify_loop stored rest
      | _ => ret false
      end
  end.

Definition verify_chain (records : list loc) : M bool :=
  verify_loop genesis records.

End db.

Module E1.

(** [E1.py], lines 49-59. *)
Fixpoint verify_loop (prev_hash : string) (records : list loc) : M bool :=
  match records with
  | [] => ret true
  | rec :: rest =>
      rc <- Py.copy rec ;;
      stored <- Py.pop rc "hash" ;;
      payload <- Py.dumps rc ;;
      let calc := sha256_hexdigest (prev_hash ++ payload) in
      match stored with
      | JStr stored_str =>
          if negb (String.eqb calc stored_str) then ret false
          else
            linked <- Py.getitem rc "prev_hash" ;;
            if Py.ne_str linked prev_hash then ret false
            else verify_loop stored_str rest
      | _ => ret false
      end
  end.

Definition verify_chain (records : list loc) : M bool :=
  verify_loop genesis records.

End E1.

Module E2.

(** [E2.py], lines 60-72: the text of [db.py]'s function. *)
Definition verify_chain (records : list loc) : M bool :=
  db.verify_chain records.

End E2.

Module E3.

(** [E3.py], lines 74-84: no comparison of the stored [prev_hash]. *)
Fixpoint verify_loop (prev_hash : string) (records : list loc) : M bool :=
  match records with
  | [] => ret true
  | rec :: rest =>
      rec_copy <- Py.copy rec ;;
      stored_hash <- Py.pop rec_copy "hash" ;;
      payload <- Py.dumps rec_copy ;;
      let new_hash := sha256_hexdigest (prev_hash ++ payload) in
      match stored_hash with
      | JStr stored =>
          if negb (String.eqb new_hash stored) then ret false
          else verify_loop stored rest
      | _ => ret false
      end
  end.

Definition verify_chain (records : list loc) : M bool :=
  verify_loop genesis records.

End E3.

(* ================================================================== *)
(** * The script lines around the call *)

(** [[json.loads(line) for line in ...]]: one new dictionary per line.
    Each line is taken as already parsed into the dictionary it holds: a
    line that [json.loads] refuses, or that holds a JSON value other than
    an object, is outside the model, and so are the exceptions such a
    line brings ([JSONDecodeError], and the [AttributeError] or
    [TypeError] of [copy] and [pop] on a value that is no dictionary). *)
Fixpoint load (lines : list dict) : M (list loc) :=
  match lines with
  | [] => ret []
  | d :: rest =>
      o <- alloc d ;;
      os <- load rest ;;
      ret (o :: os)
  end.

(** A script starts with nothing in the store. *)
Definition run {A : Type} (c : M A) : outcome A := fst (c []).

(** What the integrity part of a page puts on the screen. *)
Inductive shown : Type :=
| st_warning   (** the ledger is empty *)
| st_success   (** the chain verifies *)
| st_error.    (** the chain is invalid *)

(** [Stopped]: [st.stop()] ended the script; [Continues]: the rest of the
    page follows. *)
Inductive page : Type :=
| Stopped (out : list shown)
| Continues (out : list shown).

Definition db_chain_ok (lines : list dict) : outcome bool :=
  run (ledger_records <- load lines ;; db.verify_chain ledger_records).

Definition E3_chain_ok (lines : list dict) : outcome bool :=
  run (ledger_records <- load lines ;; E3.verify_chain ledger_records).

(** [db.py], lines 43-70 (the same lines are in [E1.py] and [E2.py]). *)
Definition db_integrity (lines : list dict) : outcome page :=
  run (ledger_records <- load lines ;;
       if Nat.eqb (List.length ledger_records) 0 then ret (Stopped [st_warning])
       else
         chain_ok <- db.verify_chain ledger_records ;;
         if chain_ok then ret (Continues [st_success])
         else ret (Continues [st_error])).

(* ================================================================== *)
(** * The loop read on values

    What one turn of the loop decides, given the items of the record it
    looks at.  [link] tells whether the stored [prev_hash] is compared
    ([db.py], [E1.py], [E2.py]) or not ([E3.py]).  These functions are a
    reading aid: [db_chain_ok_values] and [E3_chain_ok_values] prove that
    the embedded functions compute them. *)

Inductive turn : Type :=
| Next (prev_hash : string)   (** the loop goes on *)
| Stop                        (** [return False] *)
| Throw (e : exn).

Definition payload_of (rec : dict) : string :=
  json_dumps (dict_remove "hash" rec).

Definition digest (prev_hash : string) (rec : dict) : string :=
  sha256_hexdigest (prev_hash ++ payload_of rec).

Definition turn_of (link : bool) (prev_hash : string) (rec : dict) : turn :=
  match dict_get "hash" rec with
  | None => Throw (KeyError "hash")
  | Some (JStr stored) =>
      if negb (String.eqb (digest prev_hash rec) stored) then Stop
      else if link then
        match dict_get "prev_hash" (dict_remove "hash" rec) with
        | None => Throw (KeyError "prev_hash")
        | Some linked => if Py.ne_str linked prev_hash then Stop else Next stored
        end
      else Next stored
  | Some _ => Stop
  end.

Fixpoint turns (link : bool) (prev_hash : string) (recs : list dict)
  : outcome bool :=
  match recs with
  | [] => Ret true
  | rec :: rest =>
      match turn_of link prev_hash rec with
      | Next stored => turns link stored rest
      | Stop => Ret false
      | Throw e => Raise e
      end
  end.

(** [held h records recs]: the references [records] lead to the
    dictionaries [recs] in the store [h]. *)
Definition held (h : store) (records : list loc) (recs : list dict) : Prop :=
  Forall2 (fun o d => nth_error h o = Some d) records recs.

(* ================================================================== *)
(** * The specification's side *)

(** The stored [hash] of a record, when it is a string. *)
Definition stored_hash (rec : dict) : option string :=
  match dict_get "hash" rec with
  | Some (JStr s) => Some s
  | _ => None
  end.

(** The stored [prev_hash] of a record, when it is a string. *)
Definition stored_prev (rec : dict) : option string :=
  match dict_get "prev_hash" rec with
  | Some (JStr s) => Some s
  | _ => None
  end.

(** [expected_prev] at position [i] of a walk that starts from [first]:
    [first] at 0, the stored hash of the record before otherwise. *)
Definition expected_from (first : string) (recs : list dict) (i : nat)
  : option string :=
  match i with
  | O => Some first
  | S j =>
      match nth_error recs j with
      | Some before => stored_hash before
      | None => None
      end
  end.

Definition expected_prev (recs : list dict) (i : nat) : option string :=
  expected_from genesis recs i.

(** The two ledger invariants at position [i]. *)
Definition invariants_at (recs : list dict) (i : nat) (rec : dict) : Prop :=
  exists prev : string,
    expected_prev recs i = Some prev /\
    stored_hash rec = Some (digest prev rec) /\
    stored_prev rec = Some prev.

(** [ledger_records[i][f] = v]: the tampering of one field of one stored
    record; a position outside the ledger changes nothing. *)
Definition tamper (recs : list dict) (i : nat) (f : string) (v : json)
  : list dict :=
  match nth_error recs i with
  | Some rec => update i (dict_set f v rec) recs
  | None => recs
  end.

(** Modelled from the spec: [Append] of the Chain Engine, whose code (the
    decision logger) is not among the sources.  The input is the hash of
    the last record, or the genesis sentinel, and the fields of the new
    record without [prev_hash] and [hash]; [prev_hash] is set to the tail
    hash and [hash] to the digest of [prev_hash] and the canonical
    serialization of the fields with [prev_hash]. *)
Definition Append (ledger_tail_hash : string) (new_record_fields : dict)
  : dict :=
  let fields := dict_set "prev_hash" (JStr ledger_tail_hash) new_record_fields in
  let hash := sha256_hexdigest (ledger_tail_hash ++ json_dumps fields) in
  dict_set "hash" (JStr hash) fields.

(** The hash of the last record, the genesis sentinel for no record. *)
Definition ledger_tail_hash (ledger : list dict) : string :=
  match rev ledger with
  | [] => genesis
  | last :: _ =>
      match stored_hash last with
      | Some h => h
      | None => genesis
      end
  end.

(** One call of [Append] by the producer, the record put at the end. *)
Definition append_to (ledger : list dict) (new_record_fields : dict)
  : list dict :=
  ledger ++ [Append (ledger_tail_hash ledger) new_record_fields].

(** A ledger built by appending field sets one after the other. *)
Definition built (fieldsets : list dict) : list dict :=
  fold_left append_to fieldsets [].

(** The specification's [VerifyChain], which reports where and why. *)
Inductive reason : Type :=
| recomputed_hash    (** check 2: [calc != record.hash] *)
| prev_hash_linkage. (** check 3: [record.prev_hash != expected_prev] *)

Record VerificationResult : Type :=
  { valid : bool; failedAt : option (nat * reason) }.

Definition VALID : VerificationResult :=
  {| valid := true; failedAt := None |}.

Definition INVALID (position : nat) (why : reason) : VerificationResult :=
  {| valid := false; failedAt := Some (position, why) |}.

(** Section 4.2 of the specification, step by step; a field that is
    missing or not a string equals no digest. *)
Fixpoint VerifyChain_from (expected : string) (position : nat)
  (records : list dict) : VerificationResult :=
  match records with
  | [] => VALID
  | record :: rest =>
      let calc := digest expected record in
      match stored_hash record with
      | Some h =>
          if negb (String.eqb calc h) then INVALID position recomputed_hash
          else
            match stored_prev record with
            | Some p =>
                if negb (String.eqb p expected)
                then INVALID position prev_hash_linkage
                else VerifyChain_from h (S position) rest
            | None => INVALID position prev_hash_linkage
            end
      | None => INVALID position recomputed_hash
      end
  end.

Definition VerifyChain (records : list dict) : VerificationResult :=
  VerifyChain_from genesis 0 records.

(** [reordered v v']: [v'] is [v] with the items of some of its
    dictionaries, at any depth, entered in another order. *)
Inductive reordered : json -> json -> Prop :=
| reordered_same (v : json) : reordered v v
| reordered_here (d d' : dict) :
    NoDup (keys d) -> Permutation d d' -> reordered (JObj d) (JObj d')
| reordered_in_list (before after : list json) (v v' : json) :
    reordered v v' ->
    reordered (JList (before ++ v :: after)) (JList (before ++ v' :: after))
| reordered_in_dict (before after : dict) (k : string) (v v' : json) :
    reordered v v' ->
    reordered (JObj (before ++ (k, v) :: after))
              (JObj (before ++ (k, v') :: after))
| reordered_then (v1 v2 v3 : json) :
    reordered v1 v2 -> reordered v2 v3 -> reordered v1 v3.

(** A hex digit of a digest: [0-9a-f]. *)
Definition is_hex (c : ascii) : bool :=
  let n := N_of_ascii c in
  ((48 <=? n) && (n <=? 57) || (97 <=? n) && (n <=? 102))%N.

Fixpoint all_chars (p : ascii -> bool) (s : string) : bool :=
  match s with
  | EmptyString => true
  | String c rest => p c && all_chars p rest
  end.

(* ================================================================== *)
(** * [feature_to_label] of [E2.py] and the [str] methods it calls *)

Module Str.

(** [s.startswith(prefix)] *)
Fixpoint startswith (s prefix : string) {struct prefix} : bool :=
  match prefix with
  | EmptyString => true
  | String a prefix' =>
      match s with
      | EmptyString => false
      | String b s' => Ascii.eqb a b && startswith s' prefix'
      end
  end.

(** [s.endswith(suffix)]: [suffix] is [s] or the end of what follows the
    first character. *)
Fixpoint endswith (s suffix : string) : bool :=
  String.eqb s suffix ||
  match s with
  | EmptyString => false
  | String _ rest => endswith rest suffix
  end.

(** [sub in s] *)
Fixpoint contains (s sub : string) : bool :=
  startswith s sub ||
  match s with
  | EmptyString => false
  | String _ rest => contains rest sub
  end.

(** The scan of [replace] for a non-empty [old]: [skip] counts the
    characters of a replaced occurrence still to pass over. *)
Fixpoint replace_scan (old new : string) (skip : nat) (s : string)
  : string :=
  match s with
  | EmptyString => EmptyString
  | String c rest =>
      match skip with
      | S k => replace_scan old new k rest
      | O =>
          if startswith s old
          then new ++ replace_scan old new (String.length old - 1) rest
          else String c (replace_scan old new 0 rest)
      end
  end.

(** With an empty [old], [new] goes before every character and at the
    end. *)
Fixpoint replace_empty (new : string) (s : string) : string :=
  match s with
  | EmptyString => new
  | String c rest => new ++ String c (replace_empty new rest)
  end.

(** [s.replace(old, new)]: every occurrence, from the left, without
    overlap. *)
Definition replace (s old new : string) : string :=
  match old with
  | EmptyString => replace_empty new s
  | String _ _ => replace_scan old new 0 s
  end.

End Str.

(** [E2.py], lines 96-103: the dictionary [mapping]. *)
Definition mapping : list (string * string) :=
  [ ("total_events", "overall activity volume");
    ("searches", "number of searches");
    ("watch_videos", "number of video interactions");
    ("read_articles", "article reading activity");
    ("compares", "product comparison activity");
    ("product_views", "product view activity") ].

(** [m[k]] for a dictionary from strings to strings, [None] when [k] is
    not in [m]. *)
Fixpoint str_dict_get (k : string) (m : list (string * string))
  : option string :=
  match m with
  | [] => None
  | (k', v) :: rest => if String.eqb k k' then Some v else str_dict_get k rest
  end.

(** [E2.py], lines 95-110. *)
Definition feature_to_label (name : string) : string :=
  match str_dict_get name mapping with
  | Some label => label
  | None =>
      if Str.endswith name "_events" then
        let base := Str.replace name "_events" "" in
        "interactions in " ++ base ++ " category"
      else name
  end.

(* ================================================================== *)
(** * A small ledger

    The records of the specification's concrete scenario, as the lines of
    a ledger file hold them. *)

Definition fields_A : dict :=
  [ ("decision_id", JStr "d1"); ("user_id", JStr "u1");
    ("product_id", JStr "p1"); ("product_category", JStr "gaming");
    ("predicted_probability", JFloat "0.82");
    ("top_shap_features", JObj [("gaming_events", JFloat "0.31")]);
    ("influential_event_ids", JList [JStr "e1"; JStr "e2"]) ].

Definition hash_A : string :=
  "12155c6175ed9aad142e12e4d652e95deb810b0bc828d64dd0c325fa5acc2044".

Definition record_A : dict :=
  fields_A ++ [("prev_hash", JStr genesis); ("hash", JStr hash_A)].

Definition fields_B : dict :=
  [ ("decision_id", JStr "d2"); ("user_id", JStr "u2");
    ("product_id", JStr "p2"); ("product_category", JStr "fitness");
    ("predicted_probability", JFloat "0.67");
    ("top_shap_features",
       JObj [("searches", JFloat "0.12"); ("fitness_events", JFloat "-0.05")]);
    ("influential_event_ids", JList []) ].

Definition hash_B : string :=
  "03d61ef13f990b41b37195239bea4b5ba396980f638dfa0df25d9975a6256c9c".

Definition record_B : dict :=
  fields_B ++ [("prev_hash", JStr hash_A); ("hash", JStr hash_B)].

(** Record B with its [prev_hash] rewritten, and a [hash] recomputed from
    the hash of record A over the rewritten fields. *)
Definition record_B_relinked : dict :=
  fields_B ++
  [ ("prev_hash", JStr (Py.str_mul "f" 64));
    ("hash", JStr
       "97fe890870d2a8880167b71b783b4a33b81e5ad6f154db094ce34661652027b4") ].

(** Record B without its [hash] key. *)
Definition record_B_no_hash : dict :=
  fields_B ++ [("prev_hash", JStr hash_A)].

(** The bytes of an ASCII text, for test vectors. *)
Definition bytes_of_ascii_string (s : string) : list Byte.byte :=
  list_byte_of_string s.

(** Expected JSON texts below are written with apostrophes where the
    text has double quotes. *)
Fixpoint dq (s : string) : string :=
  match s with
  | EmptyString => EmptyString
  | String c rest =>
      String (if Ascii.eqb c "'"%char then Json.quote else c) (dq rest)
  end.

(* ================================================================== *)
(** * The library models on known values *)

Example sha256_constants :
  nth 0 Sha256.K 0%Z = 0x428a2f98%Z /\ nth 63 Sha256.K 0%Z = 0xc67178f2%Z /\
  List.length Sha256.K = 64 /\
  Sha256.ra Sha256.H0 = 0x6a09e667%Z /\ Sha256.rh Sha256.H0 = 0x5be0cd19%Z.
Proof. repeat split. Qed.

Example sha256_empty :
  Sha256.hexdigest [] =
  "e3b0c44298fc1c149afbf4c8996fb92427ae41e4649b934ca495991b7852b855".
Proof. vm_compute. reflexivity. Qed.

Example sha256_abc :
  Sha256.hexdigest (bytes_of_ascii_string "abc") =
  "ba7816bf8f01cfea414140de5dae2223b00361a396177a9cb410ff61f20015ad".
Proof. vm_compute. reflexivity. Qed.

Example sha256_two_blocks :
  Sha256.hexdigest (bytes_of_ascii_string
    "abcdbcdecdefdefgefghfghighijhijkijkljklmklmnlmnomnopnopq") =
  "248d6a61d20638b8e5c026930c3e6039a33ce45964ff2167f6ecedd419db06c1".
Proof. vm_compute. reflexivity. Qed.

Example sha256_55_bytes :
  Sha256.hexdigest (repeat Byte.x61 55) =
  "9f4390f8d30c2dd92ec9f095b65e2b9ae9b0a925a5258e241c9f1e910f734318".
Proof. vm_compute. reflexivity. Qed.

Example sha256_56_bytes :
  Sha256.hexdigest (repeat Byte.x61 56) =
  "b35439a4ac6f0948b6d6f9e3c6af0f5f590ce20f1bde7090ef7970686ec6738a".
Proof. vm_compute. reflexivity. Qed.

Example sha256_64_bytes :
  Sha256.hexdigest (repeat Byte.x61 64) =
  "ffe054fe7ae0cb6dc65c3af9b61d5209f439851db43d0ba5997337df154668eb".
Proof. vm_compute. reflexivity. Qed.

Example dumps_example :
  json_dumps
    [ ("b", JInt 1);
      ("a", JList [JInt 1; JFloat "2.5"; JNull; JBool true;
                   JStr (String "x" (String Json.quote (String Json.backslash
                        (String (ascii_of_nat 10) (String (ascii_of_nat 127)
                        (String (ascii_of_nat 233) (String (ascii_of_nat 1) "")))))))]);
      ("c", JObj [("z", JInt (-3)); ("y", JObj [])]) ]
  = dq "{'a':[1,2.5,null,true,'x\'\\\n\u007f\u00e9\u0001'],'b':1,'c':{'y':{},'z':-3}}".
Proof. vm_compute. reflexivity. Qed.

(* ================================================================== *)
(** * The store under one turn of the loop *)

(** The digest is never unfolded in the proofs below, only evaluated on
    closed texts. *)
Arguments sha256_hexdigest : simpl never.
Arguments json_dumps : simpl never.
Arguments genesis : simpl never.
Opaque sha256_hexdigest.

Lemma nth_error_snoc (h : store) (d : dict) :
  nth_error (h ++ [d]) (List.length h) = Some d.
Proof.
  rewrite nth_error_app2 by lia.
  now rewrite Nat.sub_diag.
Qed.

Lemma update_snoc (h : store) (d d' : dict) :
  update (List.length h) d' (h ++ [d]) = h ++ [d'].
Proof.
  induction h as [|d0 h IH]; simpl; [reflexivity|].
  now rewrite IH.
Qed.

Lemma held_grow (h extra : store) (records : list loc) (recs : list dict) :
  held h records recs -> held (h ++ extra) records recs.
Proof.
  unfold held. intros H.
  induction H as [|o d os ds Ho _ IH]; constructor; [|exact IH].
  rewrite nth_error_app1; [exact Ho|].
  apply nth_error_Some. now rewrite Ho.
Qed.

(** [rec.copy()] followed by [rec_copy.pop("hash")]: the copy is the new
    last object of the store, and only the copy loses the key. *)
Lemma copy_then_pop (h : store) (rec : loc) (d : dict) (A : Type)
  (k : loc -> json -> M A) :
  nth_error h rec = Some d ->
  (rec_copy <- Py.copy rec ;;
   stored_hash <- Py.pop rec_copy "hash" ;;
   k rec_copy stored_hash) h
  = match dict_get "hash" d with
    | Some v => k (List.length h) v (h ++ [dict_remove "hash" d])
    | None => (Raise (KeyError "hash"), h ++ [d])
    end.
Proof.
  intros Hd.
  unfold bind at 1. unfold Py.copy, bind, deref, alloc. rewrite Hd.
  unfold Py.pop, bind, deref. rewrite nth_error_snoc.
  destruct (dict_get "hash" d) as [v|]; [|reflexivity].
  unfold assign, ret. now rewrite update_snoc.
Qed.

Lemma copy_dangling (h : store) (rec : loc) (A : Type) (k : loc -> M A) :
  nth_error h rec = None ->
  (rec_copy <- Py.copy rec ;; k rec_copy) h = (Dangling rec, h).
Proof.
  intros Hd. unfold bind at 1. unfold Py.copy, bind, deref. now rewrite Hd.
Qed.

Lemma dumps_last (h : store) (d : dict) (A : Type) (k : string -> M A) :
  (payload <- Py.dumps (List.length h) ;; k payload) (h ++ [d])
  = k (json_dumps d) (h ++ [d]).
Proof.
  unfold bind at 1. unfold Py.dumps, bind, deref, ret.
  now rewrite nth_error_snoc.
Qed.

Lemma getitem_last (h : store) (d : dict) (key : string) (A : Type)
  (k : json -> M A) :
  (v <- Py.getitem (List.length h) key ;; k v) (h ++ [d])
  = match dict_get key d with
    | Some v => k v (h ++ [d])
    | None => (Raise (KeyError key), h ++ [d])
    end.
Proof.
  unfold bind at 1. unfold Py.getitem, bind, deref. rewrite nth_error_snoc.
  now destruct (dict_get key d).
Qed.

(** The loop of [db.py] at a non-empty list: its body. *)
Lemma db_loop_cons (prev : string) (rec : loc) (rest : list loc) :
  db.verify_loop prev (rec :: rest)
  = (rec_copy <- Py.copy rec ;;
     stored_hash <- Py.pop rec_copy "hash" ;;
     payload <- Py.dumps rec_copy ;;
     let calc_hash := sha256_hexdigest (prev ++ payload) in
     match stored_hash with
     | JStr stored =>
         if negb (String.eqb calc_hash stored) then ret false
         else
           linked <- Py.getitem rec_copy "prev_hash" ;;
           if Py.ne_str linked prev then ret false
           else db.verify_loop stored rest
     | _ => ret false
     end).
Proof. reflexivity. Qed.

(** One turn of [db.py]'s loop on a record the store holds. *)
Lemma db_turn (h : store) (prev : string) (rec : loc) (rest : list loc)
  (d : dict) :
  nth_error h rec = Some d ->
  exists x : dict,
    db.verify_loop prev (rec :: rest) h
    = match turn_of true prev d with
      | Next stored => db.verify_loop stored rest (h ++ [x])
      | Stop => (Ret false, h ++ [x])
      | Throw e => (Raise e, h ++ [x])
      end.
Proof.
  intros Hd. rewrite db_loop_cons.
  rewrite (copy_then_pop h rec d _ _ Hd).
  unfold turn_of, digest, payload_of.
  destruct (dict_get "hash" d) as [v|]; [|exists d; reflexivity].
  exists (dict_remove "hash" d).
  rewrite dumps_last. cbv zeta.
  destruct v; try reflexivity.
  destruct (negb _); [reflexivity|].
  rewrite getitem_last.
  destruct (dict_get "prev_hash" (dict_remove "hash" d)) as [linked|];
    [|reflexivity].
  now destruct (Py.ne_str linked prev).
Qed.

(** The loop of [E3.py] at a non-empty list: its body. *)
Lemma E3_loop_cons (prev : string) (rec : loc) (rest : list loc) :
  E3.verify_loop prev (rec :: rest)
  = (rec_copy <- Py.copy rec ;;
     stored_hash <- Py.pop rec_copy "hash" ;;
     payload <- Py.dumps rec_copy ;;
     let new_hash := sha256_hexdigest (prev ++ payload) in
     match stored_hash with
     | JStr stored =>
         if negb (String.eqb new_hash stored) then ret false
         else E3.verify_loop stored rest
     | _ => ret false
     end).
Proof. reflexivity. Qed.

(** One turn of [E3.py]'s loop on a record the store holds. *)
Lemma E3_turn (h : store) (prev : string) (rec : loc) (rest : list loc)
  (d : dict) :
  nth_error h rec = Some d ->
  exists x : dict,
    E3.verify_loop prev (rec :: rest) h
    = match turn_of false prev d with
      | Next stored => E3.verify_loop stored rest (h ++ [x])
      | Stop => (Ret false, h ++ [x])
      | Throw e => (Raise e, h ++ [x])
      end.
Proof.
  intros Hd. rewrite E3_loop_cons.
  rewrite (copy_then_pop h rec d _ _ Hd).
  unfold turn_of, digest, payload_of.
  destruct (dict_get "hash" d) as [v|]; [|exists d; reflexivity].
  exists (dict_remove "hash" d).
  rewrite dumps_last. cbv zeta.
  destruct v; try reflexivity.
  now destruct (negb _).
Qed.

Lemma db_dangling (h : store) (prev : string) (rec : loc) (rest : list loc) :
  nth_error h rec = None ->
  db.verify_loop prev (rec :: rest) h = (Dangling rec, h).
Proof. intros Hd. rewrite db_loop_cons. now apply copy_dangling. Qed.

Lemma E3_dangling (h : store) (prev : string) (rec : loc) (rest : list loc) :
  nth_error h rec = None ->
  E3.verify_loop prev (rec :: rest) h = (Dangling rec, h).
Proof. intros Hd. rewrite E3_loop_cons. now apply copy_dangling. Qed.

(* ================================================================== *)
(** * The embedded loops compute the value reading *)

Lemma db_loop_values (records : list loc) (recs : list dict) :
  forall (h : store) (prev : string),
    held h records recs ->
    exists extra : store,
      db.verify_loop prev records h = (turns true prev recs, h ++ extra).
Proof.
  revert recs. induction records as [|rec rest IH]; intros recs h prev Hh;
    inversion Hh as [|o d os ds Ho Hrest]; subst.
  - exists []. simpl. now rewrite app_nil_r.
  - destruct (db_turn h prev rec rest d Ho) as [x Hx]. rewrite Hx. simpl.
    destruct (turn_of true prev d) as [stored| |e].
    + destruct (IH ds (h ++ [x]) stored (held_grow h [x] rest ds Hrest))
        as [extra He].
      exists (x :: extra). rewrite He. now rewrite <- app_assoc.
    + now exists [x].
    + now exists [x].
Qed.

Lemma E3_loop_values (records : list loc) (recs : list dict) :
  forall (h : store) (prev : string),
    held h records recs ->
    exists extra : store,
      E3.verify_loop prev records h = (turns false prev recs, h ++ extra).
Proof.
  revert recs. induction records as [|rec rest IH]; intros recs h prev Hh;
    inversion Hh as [|o d os ds Ho Hrest]; subst.
  - exists []. simpl. now rewrite app_nil_r.
  - destruct (E3_turn h prev rec rest d Ho) as [x Hx]. rewrite Hx. simpl.
    destruct (turn_of false prev d) as [stored| |e].
    + destruct (IH ds (h ++ [x]) stored (held_grow h [x] rest ds Hrest))
        as [extra He].
      exists (x :: extra). rewrite He. now rewrite <- app_assoc.
    + now exists [x].
    + now exists [x].
Qed.

(** Loading puts the dictionaries at the end of the store, in order. *)
Lemma load_spec (lines : list dict) :
  forall h : store,
    load lines h = (Ret (seq (List.length h) (List.length lines)), h ++ lines).
Proof.
  induction lines as [|d rest IH]; intros h; simpl.
  - unfold ret. now rewrite app_nil_r.
  - unfold bind at 1. unfold alloc. unfold bind at 1.
    rewrite IH. unfold ret. rewrite length_app. simpl.
    rewrite <- app_assoc. simpl.
    now replace (List.length h + 1) with (S (List.length h)) by lia.
Qed.

Lemma held_seq (h lines : store) :
  held (h ++ lines) (seq (List.length h) (List.length lines)) lines.
Proof.
  revert h. induction lines as [|d rest IH]; intros h; simpl.
  - constructor.
  - constructor.
    + rewrite nth_error_app2 by lia. now rewrite Nat.sub_diag.
    + specialize (IH (h ++ [d])).
      rewrite length_app in IH. simpl in IH.
      replace (List.length h + 1) with (S (List.length h)) in IH by lia.
      now rewrite <- app_assoc in IH.
Qed.

Lemma db_chain_ok_values (lines : list dict) :
  db_chain_ok lines = turns true genesis lines.
Proof.
  unfold db_chain_ok, run, bind. rewrite load_spec. simpl List.length.
  destruct (db_loop_values (seq 0 (List.length lines)) lines ([] ++ lines)
              genesis (held_seq [] lines)) as [extra He].
  unfold db.verify_chain. now rewrite He.
Qed.

Lemma E3_chain_ok_values (lines : list dict) :
  E3_chain_ok lines = turns false genesis lines.
Proof.
  unfold E3_chain_ok, run, bind. rewrite load_spec. simpl List.length.
  destruct (E3_loop_values (seq 0 (List.length lines)) lines ([] ++ lines)
              genesis (held_seq [] lines)) as [extra He].
  unfold E3.verify_chain. now rewrite He.
Qed.

Lemma E1_is_db : E1.verify_chain = db.verify_chain.
Proof. reflexivity. Qed.

Lemma E2_is_db : E2.verify_chain = db.verify_chain.
Proof. reflexivity. Qed.

(* ================================================================== *)
(** * Dictionaries *)

Lemma dict_get_remove_ne (k k' : string) (d : dict) :
  k <> k' -> dict_get k (dict_remove k' d) = dict_get k d.
Proof.
  intros Hne. induction d as [|[k0 v0] rest IH]; simpl; [reflexivity|].
  destruct (String.eqb_spec k' k0) as [->|Hk'].
  - destruct (String.eqb_spec k k0) as [->|_]; [contradiction|reflexivity].
  - simpl. now rewrite IH.
Qed.

Lemma dict_get_set_eq (k : string) (v : json) (d : dict) :
  dict_get k (dict_set k v d) = Some v.
Proof.
  induction d as [|[k0 v0] rest IH]; simpl.
  - now rewrite String.eqb_refl.
  - destruct (String.eqb_spec k k0) as [->|Hk]; simpl.
    + now rewrite String.eqb_refl.
    + destruct (String.eqb_spec k k0); [contradiction|exact IH].
Qed.

Lemma dict_get_set_ne (k k' : string) (v : json) (d : dict) :
  k <> k' -> dict_get k (dict_set k' v d) = dict_get k d.
Proof.
  intros Hne. induction d as [|[k0 v0] rest IH]; simpl.
  - destruct (String.eqb_spec k k'); [contradiction|reflexivity].
  - destruct (String.eqb_spec k' k0) as [->|Hk']; simpl.
    + destruct (String.eqb_spec k k0); [contradiction|reflexivity].
    + now rewrite IH.
Qed.

Lemma dict_remove_absent (k : string) (d : dict) :
  dict_get k d = None -> dict_remove k d = d.
Proof.
  induction d as [|[k0 v0] rest IH]; simpl; [reflexivity|].
  destruct (String.eqb k k0); [discriminate|].
  intros H. now rewrite IH.
Qed.

Lemma dict_remove_set (k : string) (v : json) (d : dict) :
  dict_remove k (dict_set k v d) = dict_remove k d.
Proof.
  induction d as [|[k0 v0] rest IH]; simpl.
  - now rewrite String.eqb_refl.
  - destruct (String.eqb_spec k k0) as [->|Hk]; simpl.
    + now rewrite String.eqb_refl.
    + destruct (String.eqb_spec k k0); [contradiction|]. now rewrite IH.
Qed.

Lemma stored_prev_without_hash (rec : dict) :
  match dict_get "prev_hash" (dict_remove "hash" rec) with
  | Some (JStr s) => Some s
  | _ => None
  end = stored_prev rec.
Proof.
  unfold stored_prev. rewrite dict_get_remove_ne; [reflexivity|discriminate].
Qed.

Lemma append_inv_l (p a b : string) : (p ++ a = p ++ b)%string -> a = b.
Proof.
  induction p as [|c p IH]; simpl; [trivial|].
  intros H. injection H as H. now apply IH.
Qed.

(* ================================================================== *)
(** * One turn, read through the stored fields *)

(** A turn of the two-check loop goes on exactly when both invariants
    hold of the record, and then with the record's stored hash. *)
Lemma turn_next_iff (prev : string) (rec : dict) (s : string) :
  turn_of true prev rec = Next s <->
  stored_hash rec = Some s /\ s = digest prev rec /\ stored_prev rec = Some prev.
Proof.
  unfold turn_of, stored_hash. rewrite <- stored_prev_without_hash.
  destruct (dict_get "hash" rec) as [[| | | |stored| |]|];
    try (split; [discriminate|intros [H _]; discriminate]).
  destruct (String.eqb_spec (digest prev rec) stored) as [He|Hne]; simpl.
  - destruct (dict_get "prev_hash" (dict_remove "hash" rec))
      as [[| | | |p| |]|]; simpl;
      try (split; [discriminate|intros (_ & _ & H); discriminate]).
    destruct (String.eqb_spec p prev) as [->|Hp]; simpl.
    + split.
      * intros H. injection H as <-. now repeat split.
      * intros (H & _ & _). now injection H as ->.
    + split; [discriminate|]. intros (_ & _ & H). injection H as ->.
      contradiction.
  - split; [discriminate|]. intros (H & -> & _). injection H as ->.
    contradiction.
Qed.

(** A turn of the one-check loop goes on exactly when the stored hash is
    the recomputed one. *)
Lemma turn_next_iff_hash_only (prev : string) (rec : dict) (s : string) :
  turn_of false prev rec = Next s <->
  stored_hash rec = Some s /\ s = digest prev rec.
Proof.
  unfold turn_of, stored_hash.
  destruct (dict_get "hash" rec) as [[| | | |stored| |]|];
    try (split; [discriminate|intros [H _]; discriminate]).
  destruct (String.eqb_spec (digest prev rec) stored) as [He|Hne]; simpl.
  - split.
    + intros H. injection H as <-. now split.
    + intros (H & _). now injection H as ->.
  - split; [discriminate|]. intros (H & ->). injection H as ->.
    contradiction.
Qed.

(** The first turn of a run that returns [True]. *)
Lemma turns_true_cons (link : bool) (prev : string) (rec : dict)
  (rest : list dict) :
  turns link prev (rec :: rest) = Ret true <->
  exists s, turn_of link prev rec = Next s /\ turns link s rest = Ret true.
Proof.
  simpl. destruct (turn_of link prev rec) as [s| |e].
  - split; [intros H; now exists s|intros (s' & H & H'); now injection H as ->].
  - split; [discriminate|intros (s' & H & _); discriminate].
  - split; [discriminate|intros (s' & H & _); discriminate].
Qed.

(* ================================================================== *)
(** * C1: [verify_chain] returns [True] exactly on the chains that keep
      both invariants *)

Lemma expected_from_shift (p s : string) (rec : dict) (rest : list dict)
  (j : nat) :
  stored_hash rec = Some s ->
  expected_from p (rec :: rest) (S j) = expected_from s rest j.
Proof.
  intros Hs. destruct j as [|j]; simpl; [exact Hs|reflexivity].
Qed.

Lemma turns_true_iff (recs : list dict) :
  forall p : string,
    turns true p recs = Ret true <->
    (forall i rec, nth_error recs i = Some rec ->
       exists prev, expected_from p recs i = Some prev /\
                    stored_hash rec = Some (digest prev rec) /\
                    stored_prev rec = Some prev).
Proof.
  induction recs as [|r rest IH]; intros p.
  - split; [intros _ [|i] rec H; discriminate|reflexivity].
  - rewrite turns_true_cons. split.
    + intros (s & Hturn & Hrest).
      apply turn_next_iff in Hturn. destruct Hturn as (Hs & Hd & Hp).
      intros [|j] rec Hrec.
      * injection Hrec as <-. exists p. subst s. now repeat split.
      * rewrite (expected_from_shift p s r rest j Hs).
        apply (proj1 (IH s) Hrest j rec Hrec).
    + intros Hall.
      destruct (Hall 0 r eq_refl) as (prev & Hprev & Hs & Hp).
      injection Hprev as <-.
      exists (digest p r). split.
      * apply turn_next_iff. now repeat split.
      * apply IH. intros j rec Hrec.
        rewrite <- (expected_from_shift p (digest p r) r rest j Hs).
        apply (Hall (S j) rec Hrec).
Qed.

(** C1. [verify_chain(records)] returns [True] if and only if every record,
    at its position [i], has as stored [hash] the SHA-256 digest of
    [expected_prev] followed by the canonical JSON of the record without
    its [hash] field, and as stored [prev_hash] that same [expected_prev]:
    the genesis sentinel at position 0, the stored hash of the record
    before at the others. *)
Theorem verify_chain_true_iff_invariants (recs : list dict) :
  db_chain_ok recs = Ret true <->
  (forall (i : nat) (rec : dict),
     nth_error recs i = Some rec -> invariants_at recs i rec).
Proof.
  rewrite db_chain_ok_values. apply turns_true_iff.
Qed.

(* ================================================================== *)
(** * Runs over a prefix and over an extension *)

(** A run that does not return [True] has ended inside the list: what
    follows is not looked at. *)
Lemma turns_ended (link : bool) (l1 l2 : list dict) :
  forall p : string,
    turns link p l1 <> Ret true ->
    turns link p (l1 ++ l2) = turns link p l1.
Proof.
  induction l1 as [|r rest IH]; intros p H; simpl in *.
  - contradiction.
  - destruct (turn_of link p r); [now apply IH|reflexivity|reflexivity].
Qed.

(** A run that returns [True] on [l1] goes on over [l2] from the stored
    hash of the last record of [l1]. *)
Lemma turns_app (link : bool) (l1 : list dict) :
  forall p : string,
    turns link p l1 = Ret true ->
    exists q : string,
      expected_from p l1 (List.length l1) = Some q /\
      forall l2, turns link p (l1 ++ l2) = turns link q l2.
Proof.
  induction l1 as [|r rest IH]; intros p H.
  - exists p. now split.
  - apply turns_true_cons in H. destruct H as (s & Hturn & Hrest).
    destruct (IH s Hrest) as (q & Hq & Happ).
    assert (Hs : stored_hash r = Some s).
    { destruct link; [now apply turn_next_iff in Hturn
                     |now apply turn_next_iff_hash_only in Hturn]. }
    exists q. split.
    + simpl List.length. now rewrite (expected_from_shift p s r rest _ Hs).
    + intros l2. simpl. rewrite Hturn. apply Happ.
Qed.

Lemma turns_firstn (link : bool) (recs : list dict) (i : nat) :
  forall p : string,
    turns link p recs = Ret true ->
    turns link p (firstn i recs) = Ret true.
Proof.
  revert i. induction recs as [|r rest IH]; intros [|i] p H; try reflexivity.
  apply turns_true_cons in H. destruct H as (s & Hturn & Hrest).
  simpl. rewrite Hturn. now apply IH.
Qed.

(* ================================================================== *)
(** * The code against the specification's [VerifyChain] *)

Lemma turn_next_spec (p s : string) (r : dict) (pos : nat)
  (rest : list dict) :
  turn_of true p r = Next s ->
  VerifyChain_from p pos (r :: rest) = VerifyChain_from s (S pos) rest.
Proof.
  intros H. apply turn_next_iff in H. destruct H as (Hs & Hd & Hp).
  cbn [VerifyChain_from]. rewrite Hs, Hp, <- Hd. now rewrite !String.eqb_refl.
Qed.

Lemma turn_stop_spec (p : string) (r : dict) :
  turn_of true p r = Stop ->
  exists why : reason,
    forall pos rest, VerifyChain_from p pos (r :: rest) = INVALID pos why.
Proof.
  unfold turn_of. intros H.
  cbn [VerifyChain_from]. unfold stored_hash.
  rewrite <- stored_prev_without_hash.
  destruct (dict_get "hash" r) as [[| | | |stored| |]|];
    try (now exists recomputed_hash); try discriminate.
  destruct (negb (String.eqb (digest p r) stored));
    [now exists recomputed_hash|].
  exists prev_hash_linkage. intros pos rest.
  destruct (dict_get "prev_hash" (dict_remove "hash" r))
    as [[| | | |q| |]|]; try reflexivity; try discriminate.
  simpl in H. now destruct (negb (String.eqb q p)).
Qed.

(** [False] from the code is the specification's INVALID, at the first
    record that fails a check; the records after it are not looked at. *)
Lemma turns_false_spec (recs : list dict) :
  forall (p : string) (pos : nat),
    turns true p recs = Ret false ->
    exists (i : nat) (why : reason),
      VerifyChain_from p pos recs = INVALID (pos + i) why /\
      turns true p (firstn i recs) = Ret true /\
      forall post, turns true p (firstn (S i) recs ++ post) = Ret false.
Proof.
  induction recs as [|r rest IH]; intros p pos H; [discriminate|].
  simpl in H. destruct (turn_of true p r) as [s| |e] eqn:Hturn;
    [|clear H|discriminate].
  - destruct (IH s (S pos) H) as (i & why & Hspec & Hpre & Hpost).
    exists (S i), why. repeat split.
    + rewrite (turn_next_spec p s r pos rest Hturn), Hspec.
      now replace (S pos + i) with (pos + S i) by lia.
    + cbn [firstn turns]. now rewrite Hturn.
    + intros post. cbn [firstn app turns] in *. rewrite Hturn. apply Hpost.
  - destruct (turn_stop_spec p r Hturn) as (why & Hwhy).
    exists 0, why. repeat split.
    + rewrite Hwhy. now rewrite Nat.add_0_r.
    + intros post. cbn [firstn app turns]. now rewrite Hturn.
Qed.

Lemma turns_true_spec (recs : list dict) :
  forall (p : string) (pos : nat),
    turns true p recs = Ret true -> VerifyChain_from p pos recs = VALID.
Proof.
  induction recs as [|r rest IH]; intros p pos H; [reflexivity|].
  apply turns_true_cons in H. destruct H as (s & Hturn & Hrest).
  rewrite (turn_next_spec p s r pos rest Hturn). now apply IH.
Qed.

(* ================================================================== *)
(** * The small ledger under the embedded code *)

Example append_A : Append genesis fields_A = record_A.
Proof. vm_compute. reflexivity. Qed.

Example append_B : Append hash_A fields_B = record_B.
Proof. vm_compute. reflexivity. Qed.

Example payload_A :
  payload_of record_A =
  dq "{'decision_id':'d1','influential_event_ids':['e1','e2'],'predicted_probability':0.82,'prev_hash':'0000000000000000000000000000000000000000000000000000000000000000','product_category':'gaming','product_id':'p1','top_shap_features':{'gaming_events':0.31},'user_id':'u1'}".
Proof. vm_compute. reflexivity. Qed.

Example ledger_AB_valid : db_chain_ok [record_A; record_B] = Ret true.
Proof. vm_compute. reflexivity. Qed.

Example ledger_AB_valid_spec : VerifyChain [record_A; record_B] = VALID.
Proof. vm_compute. reflexivity. Qed.

Example ledger_A_tampered :
  db_chain_ok (tamper [record_A; record_B] 0 "predicted_probability"
                 (JFloat "0.99")) = Ret false.
Proof. vm_compute. reflexivity. Qed.

Example ledger_A_tampered_spec :
  VerifyChain (tamper [record_A; record_B] 0 "predicted_probability"
                 (JFloat "0.99")) = INVALID 0 recomputed_hash.
Proof. vm_compute. reflexivity. Qed.

Example ledger_relinked :
  db_chain_ok [record_A; record_B_relinked] = Ret false /\
  E3_chain_ok [record_A; record_B_relinked] = Ret true.
Proof. split; vm_compute; reflexivity. Qed.

Example ledger_relinked_spec :
  VerifyChain [record_A; record_B_relinked] = INVALID 1 prev_hash_linkage.
Proof. vm_compute. reflexivity. Qed.

Example ledger_no_hash :
  db_chain_ok [record_A; record_B_no_hash; record_B]
  = Raise (KeyError "hash").
Proof. vm_compute. reflexivity. Qed.

(* ================================================================== *)
(** * C3: a tampered field is detected at the tampered record *)

Lemma update_firstn_S (i : nat) (r' : dict) :
  forall (recs : list dict) (r : dict),
    nth_error recs i = Some r ->
    firstn (S i) (update i r' recs) = firstn i recs ++ [r'].
Proof.
  induction i as [|i IH]; intros [|r0 rest] r H; try discriminate.
  - reflexivity.
  - simpl in H. cbn [update firstn app]. f_equal. exact (IH rest r H).
Qed.

Lemma update_firstn (i : nat) (r' : dict) :
  forall recs : list dict, firstn i (update i r' recs) = firstn i recs.
Proof.
  induction i as [|i IH]; intros [|r0 rest]; try reflexivity.
  cbn [update firstn]. f_equal. apply IH.
Qed.

Lemma update_split (i : nat) (r' : dict) :
  forall (recs : list dict) (r : dict),
    nth_error recs i = Some r ->
    update i r' recs = firstn i recs ++ r' :: skipn (S i) recs.
Proof.
  induction i as [|i IH]; intros [|r0 rest] r H; try discriminate.
  - reflexivity.
  - simpl in H. cbn [update firstn skipn app]. f_equal. exact (IH rest r H).
Qed.

Lemma expected_from_firstn (p : string) (recs : list dict) (i : nat) :
  i <= List.length recs ->
  expected_from p (firstn i recs) i = expected_from p recs i.
Proof.
  destruct i as [|j]; [reflexivity|]. intros Hle. cbn [expected_from].
  rewrite nth_error_firstn.
  destruct (Nat.ltb_spec j (S j)); [reflexivity|lia].
Qed.

(** The turn on a record whose stored hash no longer is the digest of its
    fields. *)
Lemma turn_stop_on_changed (prev : string) (r r' : dict) (s : string) :
  turn_of true prev r = Next s ->
  dict_get "hash" r' = dict_get "hash" r ->
  digest prev r' <> digest prev r ->
  turn_of true prev r' = Stop.
Proof.
  intros Hturn Hsame Hne.
  apply turn_next_iff in Hturn. destruct Hturn as (Hs & Hd & _).
  unfold stored_hash in Hs. unfold turn_of. rewrite Hsame.
  destruct (dict_get "hash" r) as [[| | | |stored| |]|]; try discriminate.
  injection Hs as ->. subst s.
  destruct (String.eqb_spec (digest prev r') (digest prev r));
    [contradiction|reflexivity].
Qed.

Lemma turns_nth (recs : list dict) :
  forall (p : string) (i : nat) (r : dict),
    turns true p recs = Ret true ->
    nth_error recs i = Some r ->
    exists prev s,
      expected_from p recs i = Some prev /\ turn_of true prev r = Next s.
Proof.
  intros p i r Hok Hr.
  destruct (proj1 (turns_true_iff recs p) Hok i r Hr) as (prev & He & Hs & Hp).
  exists prev, (digest prev r). split; [exact He|].
  apply turn_next_iff. now repeat split.
Qed.

(** Over records that verify, [VerifyChain] walks on like the code. *)
Lemma spec_over_prefix (l : list dict) :
  forall (p : string) (pos : nat),
    turns true p l = Ret true ->
    forall q : string,
      expected_from p l (List.length l) = Some q ->
      forall tl : list dict,
        VerifyChain_from p pos (l ++ tl)
        = VerifyChain_from q (pos + List.length l) tl.
Proof.
  induction l as [|r0 l IH]; intros p pos Hl q Hq tl.
  - simpl in Hq. injection Hq as <-. simpl. now rewrite Nat.add_0_r.
  - apply turns_true_cons in Hl. destruct Hl as (s0 & Ht & Hl).
    cbn [app]. rewrite (turn_next_spec p s0 r0 pos (l ++ tl) Ht).
    assert (Hs0 : stored_hash r0 = Some s0)
      by now apply turn_next_iff in Ht.
    cbn [List.length] in Hq.
    rewrite (expected_from_shift p s0 r0 l _ Hs0) in Hq.
    rewrite (IH s0 (S pos) Hl q Hq tl). f_equal.
    cbn [List.length]. lia.
Qed.

(** C3. On a ledger that [verify_chain] accepts, write a value into a
    field other than [hash] of the record at position [i].  If that
    changes the canonical serialization of the record, and SHA-256 does
    not collide on the old and the new text behind the expected previous
    hash, then [verify_chain] returns [False] on the tampered ledger; no
    check fails before position [i] (the first [i] records still verify)
    and the check at position [i] fails (the first [i + 1] records do
    not), which the specification's [VerifyChain] reports as INVALID at
    position [i]. *)
Theorem single_field_tamper_detected
  (recs : list dict) (i : nat) (rec : dict) (f : string) (v : json) :
  db_chain_ok recs = Ret true ->
  nth_error recs i = Some rec ->
  f <> "hash" ->
  payload_of (dict_set f v rec) <> payload_of rec ->
  (forall prev : string,
      expected_prev recs i = Some prev ->
      sha256_hexdigest (prev ++ payload_of (dict_set f v rec))
      = sha256_hexdigest (prev ++ payload_of rec) ->
      (prev ++ payload_of (dict_set f v rec))%string
      = (prev ++ payload_of rec)%string) ->
  db_chain_ok (tamper recs i f v) = Ret false /\
  db_chain_ok (firstn i (tamper recs i f v)) = Ret true /\
  db_chain_ok (firstn (S i) (tamper recs i f v)) = Ret false /\
  exists why, VerifyChain (tamper recs i f v) = INVALID i why.
Proof.
  intros Hok Hrec Hf Hpay Hfree.
  rewrite !db_chain_ok_values in *. unfold tamper. rewrite Hrec.
  set (rec' := dict_set f v rec).
  destruct (turns_nth recs genesis i rec Hok Hrec) as (prev & s & Hprev & Hturn).
  assert (Hstop : turn_of true prev rec' = Stop).
  { apply (turn_stop_on_changed prev rec rec' s Hturn).
    - unfold rec'. apply dict_get_set_ne. congruence.
    - unfold digest. intros Heq. apply Hpay.
      apply (append_inv_l prev). now apply Hfree. }
  pose proof (turns_firstn true recs i genesis Hok) as Hpre.
  destruct (turns_app true (firstn i recs) genesis Hpre) as (q & Hq & Happ).
  assert (Hi : i < List.length recs).
  { apply nth_error_Some. now rewrite Hrec. }
  rewrite length_firstn, Nat.min_l in Hq by lia.
  rewrite expected_from_firstn in Hq by lia.
  unfold expected_prev in Hprev. rewrite Hprev in Hq. injection Hq as <-.
  assert (Hall : turns true genesis (update i rec' recs) = Ret false).
  { rewrite (update_split i rec' recs rec Hrec), Happ.
    cbn [turns]. now rewrite Hstop. }
  assert (Hfirst : turns true genesis (firstn (S i) (update i rec' recs))
                   = Ret false).
  { rewrite (update_firstn_S i rec' recs rec Hrec), Happ.
    cbn [turns]. now rewrite Hstop. }
  repeat split.
  - exact Hall.
  - now rewrite update_firstn.
  - exact Hfirst.
  - unfold VerifyChain.
    rewrite (update_split i rec' recs rec Hrec).
    destruct (turn_stop_spec prev rec' Hstop) as (why & Hwhy).
    exists why.
    assert (Hq2 : expected_from genesis (firstn i recs)
                    (List.length (firstn i recs)) = Some prev).
    { rewrite length_firstn, Nat.min_l by lia.
      rewrite expected_from_firstn by lia. exact Hprev. }
    rewrite (spec_over_prefix (firstn i recs) genesis 0 Hpre prev Hq2).
    rewrite Hwhy. rewrite length_firstn, Nat.min_l by lia. reflexivity.
Qed.

Lemma single_field_tamper_detected_witness :
  db_chain_ok (tamper [record_A; record_B] 0 "predicted_probability"
                 (JFloat "0.99")) = Ret false /\
  db_chain_ok (firstn 0 (tamper [record_A; record_B] 0
                 "predicted_probability" (JFloat "0.99"))) = Ret true /\
  db_chain_ok (firstn 1 (tamper [record_A; record_B] 0
                 "predicted_probability" (JFloat "0.99"))) = Ret false /\
  exists why,
    VerifyChain (tamper [record_A; record_B] 0 "predicted_probability"
                   (JFloat "0.99")) = INVALID 0 why.
Proof.
  apply (single_field_tamper_detected [record_A; record_B] 0 record_A
           "predicted_probability" (JFloat "0.99")).
  - vm_compute. reflexivity.
  - reflexivity.
  - discriminate.
  - apply String.eqb_neq. vm_compute. reflexivity.
  - intros prev Hprev Heq. exfalso. injection Hprev as <-.
    revert Heq. apply String.eqb_neq. vm_compute. reflexivity.
Defined.

(* ================================================================== *)
(** * C4: what a mismatch returns *)

(** C4, as the code has it.  When verification finds a mismatch,
    [verify_chain] returns the bare [False]: the mismatch is at the first
    record that fails one of the two checks, which is where the
    specification's [VerifyChain] reports INVALID; the records before it
    verify, and whatever follows it is not looked at. *)
Theorem verify_chain_false_at_first_mismatch (recs : list dict) :
  db_chain_ok recs = Ret false ->
  exists (i : nat) (why : reason),
    VerifyChain recs = INVALID i why /\
    db_chain_ok (firstn i recs) = Ret true /\
    forall post : list dict,
      db_chain_ok (firstn (S i) recs ++ post) = Ret false.
Proof.
  rewrite db_chain_ok_values. intros H.
  destruct (turns_false_spec recs genesis 0 H) as (i & why & Hs & Hp & Hq).
  exists i, why. repeat split.
  - exact Hs.
  - now rewrite db_chain_ok_values.
  - intros post. rewrite db_chain_ok_values. apply Hq.
Qed.

Lemma verify_chain_false_at_first_mismatch_witness :
  exists (i : nat) (why : reason),
    VerifyChain [record_A; record_B_relinked; record_B_no_hash]
    = INVALID i why /\
    db_chain_ok (firstn i [record_A; record_B_relinked; record_B_no_hash])
    = Ret true /\
    forall post : list dict,
      db_chain_ok
        (firstn (S i) [record_A; record_B_relinked; record_B_no_hash] ++ post)
      = Ret false.
Proof.
  apply (verify_chain_false_at_first_mismatch
           [record_A; record_B_relinked; record_B_no_hash]).
  vm_compute. reflexivity.
Defined.

(** C4 as stated fails: the value [verify_chain] returns does not carry
    the position or the failed check.  No function of that value gives
    the report of [VerifyChain]: a ledger whose first record fails the
    hash check and a ledger whose second record fails the linkage check
    both give [False]. *)
Lemma verify_chain_result_carries_no_diagnostics :
  ~ exists report : outcome bool -> VerificationResult,
      forall recs : list dict, report (db_chain_ok recs) = VerifyChain recs.
Proof.
  intros (report & Hreport).
  pose proof (Hreport (tamper [record_A; record_B] 0 "predicted_probability"
                         (JFloat "0.99"))) as H1.
  pose proof (Hreport [record_A; record_B_relinked]) as H2.
  rewrite ledger_A_tampered, ledger_A_tampered_spec in H1.
  rewrite (proj1 ledger_relinked), ledger_relinked_spec in H2.
  rewrite H1 in H2. discriminate H2.
Qed.

(* ================================================================== *)
(** * C10: a record without a [hash] key *)

Lemma turn_without_hash (link : bool) (prev : string) (rec : dict) :
  dict_get "hash" rec = None ->
  turn_of link prev rec = Throw (KeyError "hash").
Proof. intros H. unfold turn_of. now rewrite H. Qed.

Lemma db_chain_ok_no_dangling (recs : list dict) (l : loc) :
  db_chain_ok recs <> Dangling l.
Proof.
  rewrite db_chain_ok_values. generalize genesis.
  induction recs as [|r rest IH]; intros p; simpl; [discriminate|].
  destruct (turn_of true p r); [apply IH|discriminate|discriminate].
Qed.

(** C10. A record without a ["hash"] key that is reached, that is, with
    no check failing before it, makes [verify_chain] raise a [KeyError]
    where a boolean was to be returned, whatever follows the record; when
    the records before it verify, it is the [KeyError] of
    [pop("hash")].  [E1.py] behaves the same. *)
Theorem verify_chain_raises_without_hash
  (before : list dict) (rec : dict) (after : list dict) :
  dict_get "hash" rec = None ->
  db_chain_ok before <> Ret false ->
  (exists key : string,
      db_chain_ok (before ++ rec :: after) = Raise (KeyError key) /\
      run (ledger_records <- load (before ++ rec :: after) ;;
           E1.verify_chain ledger_records) = Raise (KeyError key)) /\
  (db_chain_ok before = Ret true ->
   db_chain_ok (before ++ rec :: after) = Raise (KeyError "hash")).
Proof.
  intros Hno Hbefore.
  change (run (ledger_records <- load (before ++ rec :: after) ;;
               E1.verify_chain ledger_records))
    with (db_chain_ok (before ++ rec :: after)).
  assert (Hpass : db_chain_ok before = Ret true ->
                  db_chain_ok (before ++ rec :: after)
                  = Raise (KeyError "hash")).
  { rewrite !db_chain_ok_values. intros Hok.
    destruct (turns_app true before genesis Hok) as (q & _ & Happ).
    rewrite Happ. cbn [turns]. now rewrite turn_without_hash. }
  split; [|exact Hpass].
  destruct (db_chain_ok before) as [[|]|[key]|l] eqn:Hrun.
  - exists "hash". split; now apply Hpass.
  - contradiction.
  - exists key. rewrite db_chain_ok_values in *.
    rewrite turns_ended by (rewrite Hrun; discriminate). now split.
  - exfalso. exact (db_chain_ok_no_dangling before l Hrun).
Qed.

Lemma verify_chain_raises_without_hash_witness :
  (exists key : string,
      db_chain_ok ([record_A] ++ record_B_no_hash :: [record_B])
      = Raise (KeyError key) /\
      run (ledger_records <- load ([record_A] ++ record_B_no_hash :: [record_B]) ;;
           E1.verify_chain ledger_records) = Raise (KeyError key)) /\
  (db_chain_ok [record_A] = Ret true ->
   db_chain_ok ([record_A] ++ record_B_no_hash :: [record_B])
   = Raise (KeyError "hash")).
Proof.
  apply (verify_chain_raises_without_hash [record_A] record_B_no_hash
           [record_B]).
  - reflexivity.
  - vm_compute. discriminate.
Defined.

(** A run that returns a boolean [True] has found a string under
    ["hash"] in every record. *)
Lemma verify_chain_true_all_have_hash (recs : list dict) :
  db_chain_ok recs = Ret true ->
  Forall (fun rec => stored_hash rec <> None) recs.
Proof.
  intros H. apply Forall_forall. intros rec Hin.
  apply In_nth_error in Hin. destruct Hin as (i & Hi).
  rewrite db_chain_ok_values in H.
  destruct (proj1 (turns_true_iff recs genesis) H i rec Hi)
    as (prev & _ & Hs & _).
  rewrite Hs. discriminate.
Qed.

(* ================================================================== *)
(** * C2: the hash check alone against both checks *)

(** What [db.py] accepts, [E3.py] accepts. *)
Lemma turns_link_weaker (recs : list dict) :
  forall p : string,
    turns true p recs = Ret true -> turns false p recs = Ret true.
Proof.
  induction recs as [|r rest IH]; intros p H; [reflexivity|].
  apply turns_true_cons in H. destruct H as (s & Hturn & Hrest).
  apply turns_true_cons. exists s. split; [|now apply IH].
  apply turn_next_iff in Hturn. apply turn_next_iff_hash_only.
  now destruct Hturn as (Hs & Hd & _).
Qed.

Lemma db_accepts_E3_accepts (recs : list dict) :
  db_chain_ok recs = Ret true -> E3_chain_ok recs = Ret true.
Proof.
  rewrite db_chain_ok_values, E3_chain_ok_values. apply turns_link_weaker.
Qed.

(** C2. There is a ledger on which the hash-only verifier of [E3.py]
    returns [True] and the two-check verifier of [db.py] returns [False]:
    every stored hash is the digest computed from the expected previous
    hash, and the stored [prev_hash] of a record has been rewritten, so
    that it is not the expected previous hash. *)
Theorem hash_only_check_is_insufficient :
  exists recs : list dict,
    E3_chain_ok recs = Ret true /\
    db_chain_ok recs = Ret false /\
    (forall i rec, nth_error recs i = Some rec ->
       exists prev, expected_prev recs i = Some prev /\
                    stored_hash rec = Some (digest prev rec)) /\
    (exists i rec, nth_error recs i = Some rec /\
       stored_prev rec <> expected_prev recs i).
Proof.
  exists [record_A; record_B_relinked]. split; [|split; [|split]].
  - vm_compute. reflexivity.
  - vm_compute. reflexivity.
  - intros [|[|i]] rec Hrec; simpl in Hrec; try (destruct i; discriminate).
    + injection Hrec as <-. exists genesis. split; [reflexivity|].
      vm_compute. reflexivity.
    + injection Hrec as <-. exists hash_A. split; [reflexivity|].
      vm_compute. reflexivity.
  - exists 1, record_B_relinked. split; [reflexivity|].
    vm_compute. discriminate.
Qed.

(* ================================================================== *)
(** * C5: the empty ledger *)

Lemma db_integrity_nonempty (d : dict) (rest : list dict) :
  db_integrity (d :: rest)
  = match db_chain_ok (d :: rest) with
    | Ret true => Ret (Continues [st_success])
    | Ret false => Ret (Continues [st_error])
    | Raise e => Raise e
    | Dangling l => Dangling l
    end.
Proof.
  unfold db_integrity, db_chain_ok, run.
  unfold bind at 1 3. rewrite load_spec.
  cbn [List.length seq Nat.eqb].
  unfold bind.
  destruct (db.verify_chain (0 :: seq 1 (List.length rest)) ([] ++ d :: rest))
    as [[[|]|e|l] h']; reflexivity.
Qed.

(** C5.  The claim holds of [db.py] (and of [E1.py] and [E2.py], which
    have the same lines): the caller tests for zero records before the
    call, so the empty ledger gets the warning and the script stops, with
    neither the verified nor the invalid message, and the warning is shown
    for the empty ledger only.  [E3.py] has no such test: on the empty
    ledger its call [verify_chain(ledger_records)] is made and returns
    [True], the condition on which line 88 shows the ledger as valid. *)
Theorem empty_ledger_judged_valid_in_E3 :
  E3_chain_ok [] = Ret true /\
  db_integrity [] = Ret (Stopped [st_warning]) /\
  forall lines : list dict,
    db_integrity lines = Ret (Stopped [st_warning]) <-> lines = [].
Proof.
  split; [reflexivity|]. split; [reflexivity|].
  intros lines. split.
  - destruct lines as [|d rest]; [reflexivity|].
    rewrite db_integrity_nonempty.
    destruct (db_chain_ok (d :: rest)) as [[|]|e|l]; discriminate.
  - intros ->. reflexivity.
Qed.

(* ================================================================== *)
(** * C6: the genesis sentinel and the one-record ledger *)

(** C6. The expected [prev_hash] of the first record is the string of 64
    characters ['0'], and a ledger of exactly one record whose stored
    [prev_hash] is this sentinel and whose stored [hash] is the digest of
    the sentinel followed by the record's canonical serialization
    verifies. *)
Theorem genesis_record_verifies (rec : dict) :
  stored_prev rec = Some genesis ->
  stored_hash rec
  = Some (sha256_hexdigest
            (genesis ++ json_dumps (dict_remove "hash" rec))) ->
  genesis
  = "0000000000000000000000000000000000000000000000000000000000000000" /\
  String.length genesis = 64 /\
  expected_prev [rec] 0 = Some genesis /\
  db_chain_ok [rec] = Ret true /\
  VerifyChain [rec] = VALID.
Proof.
  intros Hp Hs.
  assert (Hok : turns true genesis [rec] = Ret true).
  { apply turns_true_cons. exists (digest genesis rec). split; [|reflexivity].
    apply turn_next_iff. now repeat split. }
  split; [reflexivity|]. split; [reflexivity|]. split; [reflexivity|].
  split.
  - now rewrite db_chain_ok_values.
  - now apply turns_true_spec.
Qed.

Lemma genesis_record_verifies_witness :
  genesis
  = "0000000000000000000000000000000000000000000000000000000000000000" /\
  String.length genesis = 64 /\
  expected_prev [record_A] 0 = Some genesis /\
  db_chain_ok [record_A] = Ret true /\
  VerifyChain [record_A] = VALID.
Proof.
  apply (genesis_record_verifies record_A).
  - reflexivity.
  - vm_compute. reflexivity.
Defined.

(* ================================================================== *)
(** * C8: a ledger built by [Append] verifies *)

Lemma ledger_tail_hash_snoc (ledger : list dict) (rec : dict) (h : string) :
  stored_hash rec = Some h -> ledger_tail_hash (ledger ++ [rec]) = h.
Proof.
  intros H. unfold ledger_tail_hash. rewrite rev_app_distr. simpl.
  now rewrite H.
Qed.

Lemma expected_at_end (p : string) (ledger : list dict) (q : string) :
  expected_from p ledger (List.length ledger) = Some q ->
  match rev ledger with
  | [] => p
  | last :: _ => match stored_hash last with Some h => h | None => p end
  end = q.
Proof.
  destruct ledger as [|r0 rest] using rev_ind.
  - simpl. now intros [= ->].
  - rewrite length_app, Nat.add_comm. cbn [List.length Nat.add expected_from].
    rewrite nth_error_app2 by lia. rewrite Nat.sub_diag. cbn [nth_error].
    rewrite rev_app_distr. cbn [rev app]. now intros ->.
Qed.

(** The record [Append] makes passes both checks behind the tail hash it
    was given. *)
Lemma turn_of_Append (tail : string) (fields : dict) :
  dict_get "hash" fields = None ->
  exists h : string,
    stored_hash (Append tail fields) = Some h /\
    turn_of true tail (Append tail fields) = Next h.
Proof.
  intros Hno. unfold Append.
  set (body := dict_set "prev_hash" (JStr tail) fields).
  assert (Hbody : dict_get "hash" body = None).
  { unfold body. rewrite dict_get_set_ne; [exact Hno|discriminate]. }
  set (h := sha256_hexdigest (tail ++ json_dumps body)).
  assert (Hrem : dict_remove "hash" (dict_set "hash" (JStr h) body) = body).
  { rewrite dict_remove_set. now apply dict_remove_absent. }
  assert (Hs : stored_hash (dict_set "hash" (JStr h) body) = Some h).
  { unfold stored_hash. now rewrite dict_get_set_eq. }
  exists h. split; [exact Hs|].
  apply turn_next_iff. split; [exact Hs|]. split.
  - unfold digest, payload_of. now rewrite Hrem.
  - unfold stored_prev. rewrite dict_get_set_ne by discriminate.
    unfold body. now rewrite dict_get_set_eq.
Qed.

Lemma built_snoc (fieldsets : list dict) (fields : dict) :
  built (fieldsets ++ [fields]) = append_to (built fieldsets) fields.
Proof. unfold built. now rewrite fold_left_app. Qed.

(** C8. A ledger built only by sequential [Append] calls, each on the
    tail hash of the ledger so far and on fields that, as [Append]
    requires, have no [hash] among them, verifies. *)
Theorem appended_ledger_verifies (fieldsets : list dict) :
  Forall (fun fields => dict_get "hash" fields = None) fieldsets ->
  db_chain_ok (built fieldsets) = Ret true /\
  VerifyChain (built fieldsets) = VALID.
Proof.
  intros Hall.
  assert (Hok : turns true genesis (built fieldsets) = Ret true).
  { induction fieldsets as [|fields rest IH] using rev_ind; [reflexivity|].
    apply Forall_app in Hall. destruct Hall as (Hrest & Hlast).
    inversion Hlast as [|x l Hno _]; subst.
    specialize (IH Hrest). rewrite built_snoc. unfold append_to.
    destruct (turns_app true (built rest) genesis IH) as (q & Hq & Happ).
    rewrite Happ.
    assert (Htail : ledger_tail_hash (built rest) = q)
      by (unfold ledger_tail_hash; now apply expected_at_end).
    rewrite Htail.
    destruct (turn_of_Append q fields Hno) as (h & _ & Hturn).
    cbn [turns]. now rewrite Hturn. }
  split; [now rewrite db_chain_ok_values|now apply turns_true_spec].
Qed.

Lemma appended_ledger_verifies_witness :
  db_chain_ok (built [fields_A; fields_B]) = Ret true /\
  VerifyChain (built [fields_A; fields_B]) = VALID.
Proof.
  apply (appended_ledger_verifies [fields_A; fields_B]).
  repeat constructor.
Defined.

Example built_AB : built [fields_A; fields_B] = [record_A; record_B].
Proof. vm_compute. reflexivity. Qed.

(* ================================================================== *)
(** * C9: verification leaves the records as they are *)

(** Whatever the list of references, the loop only adds objects to the
    store: everything that was in it stays as it was. *)
Lemma db_loop_frame (records : list loc) :
  forall (h : store) (prev : string),
    exists extra : store, snd (db.verify_loop prev records h) = h ++ extra.
Proof.
  induction records as [|rec rest IH]; intros h prev.
  - exists []. simpl. now rewrite app_nil_r.
  - destruct (nth_error h rec) as [d|] eqn:Hd.
    + destruct (db_turn h prev rec rest d Hd) as [x Hx]. rewrite Hx.
      destruct (turn_of true prev d) as [stored| |e].
      * destruct (IH (h ++ [x]) stored) as [extra He].
        exists (x :: extra). rewrite He. now rewrite <- app_assoc.
      * now exists [x].
      * now exists [x].
    + rewrite (db_dangling h prev rec rest Hd). exists []. simpl.
      now rewrite app_nil_r.
Qed.

Lemma E3_loop_frame (records : list loc) :
  forall (h : store) (prev : string),
    exists extra : store, snd (E3.verify_loop prev records h) = h ++ extra.
Proof.
  induction records as [|rec rest IH]; intros h prev.
  - exists []. simpl. now rewrite app_nil_r.
  - destruct (nth_error h rec) as [d|] eqn:Hd.
    + destruct (E3_turn h prev rec rest d Hd) as [x Hx]. rewrite Hx.
      destruct (turn_of false prev d) as [stored| |e].
      * destruct (IH (h ++ [x]) stored) as [extra He].
        exists (x :: extra). rewrite He. now rewrite <- app_assoc.
      * now exists [x].
      * now exists [x].
    + rewrite (E3_dangling h prev rec rest Hd). exists []. simpl.
      now rewrite app_nil_r.
Qed.

Lemma firstn_own_length (h extra : store) :
  firstn (List.length h) (h ++ extra) = h.
Proof.
  rewrite firstn_app, Nat.sub_diag, firstn_all. simpl. apply app_nil_r.
Qed.

(** C9. For every store and every list of references into it, also one
    that holds the same dictionary twice, and however the call ends, the
    objects that were in the store before [verify_chain] are in it
    unchanged afterwards, in [db.py] and in [E3.py]: the call only adds
    the copies it makes. *)
Theorem verify_chain_is_read_only (h : store) (records : list loc) :
  firstn (List.length h) (snd (db.verify_chain records h)) = h /\
  firstn (List.length h) (snd (E3.verify_chain records h)) = h.
Proof.
  unfold db.verify_chain, E3.verify_chain.
  destruct (db_loop_frame records h genesis) as [x Hx].
  destruct (E3_loop_frame records h genesis) as [y Hy].
  rewrite Hx, Hy. split; apply firstn_own_length.
Qed.

(** Each record reads after the call as it read before. *)
Lemma records_held_after (h : store) (records : list loc)
  (recs : list dict) :
  held h records recs ->
  held (snd (db.verify_chain records h)) records recs /\
  held (snd (E3.verify_chain records h)) records recs.
Proof.
  intros H. unfold db.verify_chain, E3.verify_chain.
  destruct (db_loop_frame records h genesis) as [x Hx].
  destruct (E3_loop_frame records h genesis) as [y Hy].
  rewrite Hx, Hy. split; now apply held_grow.
Qed.

(** The copy does lose its [hash]: on the small ledger the store ends
    with the two records as they were and, after them, their two copies
    without the key. *)
Example read_only_on_small_ledger :
  snd (db.verify_chain [0; 1] [record_A; record_B])
  = [record_A; record_B;
     dict_remove "hash" record_A; dict_remove "hash" record_B].
Proof. vm_compute. reflexivity. Qed.

(** The same dictionary twice in the list. *)
Example read_only_with_alias :
  db.verify_chain [0; 0] [record_A]
  = (Ret false, [record_A; dict_remove "hash" record_A;
                 dict_remove "hash" record_A]).
Proof. vm_compute. reflexivity. Qed.

(* ================================================================== *)
(** * C7: the serialization does not depend on the insertion order *)

Section KeyOrder.

Lemma leb_trans (s1 s2 s3 : string) :
  String.leb s1 s2 = true -> String.leb s2 s3 = true ->
  String.leb s1 s3 = true.
Proof.
  unfold String.leb. revert s2 s3.
  induction s1 as [|c1 s1 IH]; intros [|c2 s2] [|c3 s3]; simpl;
    try reflexivity; try discriminate.
  unfold Ascii.compare.
  generalize (N_of_ascii c1) (N_of_ascii c2) (N_of_ascii c3).
  intros a b c.
  destruct (N.compare_spec a b), (N.compare_spec b c),
    (N.compare_spec a c); subst;
    try reflexivity; try discriminate; try lia; try apply IH;
    intros; exfalso; lia.
Qed.

Context {A : Type}.
Implicit Types (x y : string * A) (l : list (string * A)).

(** Two items with different keys go to their places in either
    order. *)
Lemma insert_item_comm x y l :
  fst x <> fst y ->
  Json.insert_item x (Json.insert_item y l)
  = Json.insert_item y (Json.insert_item x l).
Proof.
  intros Hne.
  assert (Hd : (String.leb (fst x) (fst y) = true /\
                String.leb (fst y) (fst x) = false) \/
               (String.leb (fst x) (fst y) = false /\
                String.leb (fst y) (fst x) = true)).
  { destruct (String.leb (fst x) (fst y)) eqn:E1,
             (String.leb (fst y) (fst x)) eqn:E2; auto.
    - exfalso. apply Hne. now apply String.leb_antisym.
    - destruct (String.leb_total (fst x) (fst y)); congruence. }
  induction l as [|z l IH]; simpl.
  - destruct Hd as [[E1 E2]|[E1 E2]]; now rewrite E1, E2.
  - destruct (String.leb (fst y) (fst z)) eqn:Ey,
             (String.leb (fst x) (fst z)) eqn:Ex;
      destruct Hd as [[E1 E2]|[E1 E2]];
      simpl; rewrite ?E1, ?E2, ?Ex, ?Ey; simpl; rewrite ?Ex, ?Ey;
      try reflexivity;
      try (rewrite (leb_trans _ _ _ E1 Ey) in Ex; discriminate);
      try (rewrite (leb_trans _ _ _ E2 Ex) in Ey; discriminate).
    all: now rewrite IH.
Qed.

(** Items with the same keys and values, entered in any order, are
    sorted to the same list. *)
Lemma sort_items_permutation l l' :
  Permutation l l' ->
  NoDup (map fst l) ->
  Json.sort_items l = Json.sort_items l'.
Proof.
  induction 1 as [|x l l' Hperm IH|x y l|l l' l'' H1 IH1 H2 IH2];
    intros Hnd.
  - reflexivity.
  - simpl. rewrite IH; [reflexivity|]. now inversion Hnd.
  - simpl. apply insert_item_comm.
    inversion Hnd as [|k ks Hnotin _]; subst.
    intros E. apply Hnotin. left. now symmetry.
  - rewrite IH1 by assumption. apply IH2.
    apply (Permutation_NoDup (l := map fst l)); [|assumption].
    now apply Permutation_map.
Qed.

Lemma insert_item_sorted x l :
  StronglySorted (fun a b => String.leb (fst a) (fst b) = true) l ->
  StronglySorted (fun a b => String.leb (fst a) (fst b) = true)
    (Json.insert_item x l).
Proof.
  induction 1 as [|z l Hs IH Hall]; simpl.
  - repeat constructor.
  - destruct (String.leb (fst x) (fst z)) eqn:E.
    + constructor; [now constructor|].
      constructor; [exact E|].
      eapply Forall_impl; [|exact Hall].
      intros a Ha. exact (leb_trans _ _ _ E Ha).
    + constructor; [exact IH|].
      assert (Hzx : String.leb (fst z) (fst x) = true).
      { destruct (String.leb_total (fst x) (fst z)); congruence. }
      clear IH Hs. induction l as [|w l IHl]; simpl.
      * now repeat constructor.
      * inversion Hall as [|? ? Hw Hl]; subst.
        destruct (String.leb (fst x) (fst w)).
        -- constructor; [exact Hzx|now constructor].
        -- constructor; [exact Hw|now apply IHl].
Qed.

(** The keys leave [sort_items] in lexicographic order. *)
Lemma sort_items_sorted l :
  StronglySorted (fun a b => String.leb (fst a) (fst b) = true)
    (Json.sort_items l).
Proof.
  induction l as [|x l IH]; simpl; [constructor|].
  now apply insert_item_sorted.
Qed.

End KeyOrder.

Lemma insert_item_map {A B : Type} (g : A -> B) (x : string * A)
  (l : list (string * A)) :
  Json.insert_item (fst x, g (snd x)) (map (fun kv => (fst kv, g (snd kv))) l)
  = map (fun kv => (fst kv, g (snd kv))) (Json.insert_item x l).
Proof.
  induction l as [|y l IH]; simpl; [reflexivity|].
  destruct (String.leb (fst x) (fst y)); simpl; [reflexivity|].
  now rewrite IH.
Qed.

Lemma sort_items_map {A B : Type} (g : A -> B) (l : list (string * A)) :
  Json.sort_items (map (fun kv => (fst kv, g (snd kv))) l)
  = map (fun kv => (fst kv, g (snd kv))) (Json.sort_items l).
Proof.
  induction l as [|x l IH]; simpl; [reflexivity|].
  rewrite IH. apply insert_item_map.
Qed.

(** The text of a dictionary is the text the library builds: the items
    sorted by key first, then each key, a colon and the text of the value,
    with commas between the items, in braces. *)
Lemma dumps_dict_sorted_first (d : dict) :
  json_dumps d
  = ("{" ++ String.concat ","
              (map (fun kv => Json.encode_basestring_ascii (fst kv) ++ ":"
                              ++ Json.dumps (snd kv))
                   (Json.sort_items d))
         ++ "}")%string.
Proof.
  unfold json_dumps. cbn [Json.dumps].
  rewrite (sort_items_map Json.dumps d), map_map. reflexivity.
Qed.

Lemma json_dumps_permutation (r1 r2 : dict) :
  NoDup (keys r1) -> Permutation r1 r2 -> json_dumps r1 = json_dumps r2.
Proof.
  intros Hnd Hperm. rewrite !dumps_dict_sorted_first.
  now rewrite (sort_items_permutation r1 r2 Hperm Hnd).
Qed.

(* ================================================================== *)
(** * The shape of a digest *)

Lemma hex_digit_is_hex (z : Z) : is_hex (Sha256.hex_digit z) = true.
Proof.
  unfold Sha256.hex_digit.
  assert (Hn : (0 <= Z.land z 0xf < 16)%Z).
  { change 0xf%Z with (Z.ones 4). rewrite Z.land_ones by lia.
    apply Z.mod_pos_bound. reflexivity. }
  remember (Z.land z 0xf) as n eqn:En. clear En.
  assert (Hc : exists k : nat, (k < 16)%nat /\ n = Z.of_nat k).
  { exists (Z.to_nat n). split; lia. }
  destruct Hc as (k & Hk & ->). clear Hn.
  do 16 (destruct k as [|k]; [reflexivity|]). lia.
Qed.

Lemma hex8_length (w : Z) (k : string) :
  String.length (Sha256.hex8 w k) = 8 + String.length k.
Proof. reflexivity. Qed.

Lemma hex8_all_hex (w : Z) (k : string) :
  all_chars is_hex k = true -> all_chars is_hex (Sha256.hex8 w k) = true.
Proof.
  intros Hk. unfold Sha256.hex8. cbn [all_chars].
  now rewrite !hex_digit_is_hex, Hk.
Qed.

Transparent sha256_hexdigest.

(** A digest is 64 lower-case hexadecimal characters. *)
Lemma hexdigest_shape (s : string) :
  String.length (sha256_hexdigest s) = 64 /\
  all_chars is_hex (sha256_hexdigest s) = true.
Proof.
  unfold sha256_hexdigest, Sha256.hexdigest, Sha256.hex_of_regs.
  generalize (Sha256.sha256 (encode_utf8 s)). intros h. split.
  - rewrite !hex8_length. reflexivity.
  - repeat apply hex8_all_hex. reflexivity.
Qed.

Opaque sha256_hexdigest.

(** The order in which a dictionary inside a record was filled, at any
    depth, does not show in the text. *)
Lemma dumps_reordered (v v' : json) :
  reordered v v' -> Json.dumps v = Json.dumps v'.
Proof.
  induction 1 as [v|d d' Hnd Hperm|before after v v' _ IH
                 |before after k v v' _ IH|v1 v2 v3 _ IH1 _ IH2].
  - reflexivity.
  - exact (json_dumps_permutation d d' Hnd Hperm).
  - cbn [Json.dumps]. rewrite !map_app. cbn [map]. now rewrite IH.
  - cbn [Json.dumps]. rewrite !map_app. cbn [map fst snd]. now rewrite IH.
  - now rewrite IH1.
Qed.

Example nested_order_same_text :
  json_dumps fields_B
  = json_dumps
      [ ("influential_event_ids", JList []);
        ("top_shap_features",
           JObj [("fitness_events", JFloat "-0.05"); ("searches", JFloat "0.12")]);
        ("predicted_probability", JFloat "0.67");
        ("product_category", JStr "fitness"); ("product_id", JStr "p2");
        ("user_id", JStr "u2"); ("decision_id", JStr "d2") ].
Proof. vm_compute. reflexivity. Qed.

(** C7. Two records with the same fields and the same values, the fields
    entered in any order, have the same canonical serialization, which is
    the text with the keys in lexicographic order and only [","] and
    [":"] between the parts; so the hash computed from the same
    [prev_hash] and either record is the same digest of 64 hexadecimal
    characters. *)
Theorem serialization_and_digest_deterministic
  (r1 r2 : dict) (prev_hash : string) :
  NoDup (keys r1) ->
  Permutation r1 r2 ->
  json_dumps r1 = json_dumps r2 /\
  json_dumps r1
  = ("{" ++ String.concat ","
              (map (fun kv => Json.encode_basestring_ascii (fst kv) ++ ":"
                              ++ Json.dumps (snd kv))
                   (Json.sort_items r1))
         ++ "}")%string /\
  StronglySorted (fun a b => String.leb (fst a) (fst b) = true)
    (Json.sort_items r1) /\
  sha256_hexdigest (prev_hash ++ json_dumps r1)
  = sha256_hexdigest (prev_hash ++ json_dumps r2) /\
  String.length (sha256_hexdigest (prev_hash ++ json_dumps r1)) = 64 /\
  all_chars is_hex (sha256_hexdigest (prev_hash ++ json_dumps r1)) = true.
Proof.
  intros Hnd Hperm.
  pose proof (json_dumps_permutation r1 r2 Hnd Hperm) as Heq.
  split; [exact Heq|].
  split; [apply dumps_dict_sorted_first|].
  split; [apply sort_items_sorted|].
  split; [now rewrite Heq|].
  apply hexdigest_shape.
Qed.

Lemma serialization_and_digest_deterministic_witness :
  json_dumps (dict_remove "hash" record_A)
  = json_dumps (rev (dict_remove "hash" record_A)) /\
  json_dumps (dict_remove "hash" record_A)
  = ("{" ++ String.concat ","
              (map (fun kv => Json.encode_basestring_ascii (fst kv) ++ ":"
                              ++ Json.dumps (snd kv))
                   (Json.sort_items (dict_remove "hash" record_A)))
         ++ "}")%string /\
  StronglySorted (fun a b => String.leb (fst a) (fst b) = true)
    (Json.sort_items (dict_remove "hash" record_A)) /\
  sha256_hexdigest (genesis ++ json_dumps (dict_remove "hash" record_A))
  = sha256_hexdigest
      (genesis ++ json_dumps (rev (dict_remove "hash" record_A))) /\
  String.length
    (sha256_hexdigest (genesis ++ json_dumps (dict_remove "hash" record_A)))
  = 64 /\
  all_chars is_hex
    (sha256_hexdigest (genesis ++ json_dumps (dict_remove "hash" record_A)))
  = true.
Proof.
  apply (serialization_and_digest_deterministic
           (dict_remove "hash" record_A)
           (rev (dict_remove "hash" record_A)) genesis).
  - vm_compute. repeat constructor; simpl; intuition discriminate.
  - apply Permutation_rev.
Defined.

Example reversed_fields_same_digest :
  sha256_hexdigest
    (genesis ++ json_dumps (rev (dict_remove "hash" record_A)))
  = hash_A.
Proof. vm_compute. reflexivity. Qed.

(* ================================================================== *)
(** * [feature_to_label] *)

Example str_methods_on_known_values :
  Str.replace "a_events_b_events" "_events" "" = "a_b" /\
  Str.replace "aaa" "aa" "b" = "ba" /\
  Str.replace "abc" "" "-" = "-a-b-c-" /\
  Str.endswith "gaming_events" "_events" = true /\
  Str.endswith "events" "_events" = false /\
  Str.contains "home_entertainment" "_events" = false.
Proof. repeat split. Qed.

Example feature_labels :
  feature_to_label "total_events" = "overall activity volume" /\
  feature_to_label "gaming_events" = "interactions in gaming category" /\
  feature_to_label "home_entertainment_events"
  = "interactions in home_entertainment category" /\
  feature_to_label "price" = "price".
Proof. repeat split. Qed.

Lemma endswith_append (base suffix : string) :
  Str.endswith (base ++ suffix) suffix = true.
Proof.
  induction base as [|c base IH].
  - change (("" ++ suffix)%string) with suffix.
    destruct suffix; cbn [Str.endswith]; now rewrite String.eqb_refl.
  - change ((String c base ++ suffix)%string)
      with (String c (base ++ suffix)).
    cbn [Str.endswith]. rewrite IH. apply orb_true_r.
Qed.

(** An occurrence of ["_events"] that starts inside [u] lies inside [u]:
    the underscore is the first character of the pattern only. *)
Lemma no_occurrence_across (u : string) :
  u <> EmptyString ->
  Str.startswith (u ++ "_events") "_events" = true ->
  Str.startswith u "_events" = true.
Proof.
  intros Hu.
  destruct u as [|c1 u]; [contradiction|]. clear Hu.
  repeat
    (cbn [append Str.startswith];
     match goal with
     | |- context [Ascii.eqb ?a ?c] =>
         destruct (Ascii.eqb a c); cbn [andb]; [|intros H; discriminate H]
     end;
     try (destruct u as [|? u];
          [cbn; intros H; discriminate H|])).
  cbn. intros _. reflexivity.
Qed.

Lemma replace_events_suffix (base : string) :
  Str.contains base "_events" = false ->
  Str.replace (base ++ "_events") "_events" "" = base.
Proof.
  unfold Str.replace.
  induction base as [|c base IH]; intros Hno; [reflexivity|].
  cbn [Str.contains] in Hno. apply orb_false_iff in Hno.
  destruct Hno as (Hhere & Hrest).
  change ((String c base ++ "_events")%string)
    with (String c (base ++ "_events")).
  cbn [Str.replace_scan].
  destruct (Str.startswith (String c (base ++ "_events")) "_events") eqn:E.
  - apply (no_occurrence_across (String c base)) in E; [|discriminate].
    congruence.
  - now rewrite IH.
Qed.

Lemma length_append (a b : string) :
  String.length (a ++ b) = String.length a + String.length b.
Proof. induction a as [|c a IH]; simpl; [reflexivity|now rewrite IH]. Qed.

Lemma append_inv_r (a b suffix : string) :
  (a ++ suffix = b ++ suffix)%string -> a = b.
Proof.
  intros H.
  assert (Hlen : String.length a = String.length b).
  { apply (f_equal String.length) in H.
    rewrite !length_append in H. lia. }
  revert b H Hlen. induction a as [|c a IH]; intros [|d b] H Hlen;
    try discriminate; [reflexivity|].
  simpl in H. injection H as -> H. f_equal. apply IH; [exact H|].
  simpl in Hlen. lia.
Qed.

(** X1. A feature named [base_events], where [base] has no ["_events"]
    inside and is not ["total"], is labelled
    ["interactions in base category"]. *)
Theorem feature_to_label_category (base : string) :
  Str.contains base "_events" = false ->
  base <> "total" ->
  feature_to_label (base ++ "_events")
  = ("interactions in " ++ base ++ " category")%string.
Proof.
  intros Hno Htotal. unfold feature_to_label.
  assert (Hkey : str_dict_get (base ++ "_events") mapping = None).
  { unfold mapping. cbn [str_dict_get].
    destruct (String.eqb_spec (base ++ "_events") "total_events") as [E|_].
    { exfalso. apply Htotal. now apply (append_inv_r base "total" "_events"). }
    repeat match goal with
    | |- context [String.eqb (base ++ "_events") ?k] =>
        destruct (String.eqb_spec (base ++ "_events") k) as [E|_];
        [ exfalso; pose proof (endswith_append base "_events") as He;
          rewrite E in He; discriminate He | ]
    end.
    reflexivity. }
  rewrite Hkey, endswith_append. cbv zeta.
  now rewrite replace_events_suffix.
Qed.

Lemma feature_to_label_category_witness :
  feature_to_label ("home_entertainment" ++ "_events")
  = ("interactions in " ++ "home_entertainment" ++ " category")%string.
Proof.
  apply (feature_to_label_category "home_entertainment").
  - reflexivity.
  - discriminate.
Defined.

(* ================================================================== *)
(** * More on [verify_chain]: what it detects and what it does not *)

Lemma turns_app_inv (link : bool) (l1 l2 : list dict) :
  forall p : string,
    turns link p (l1 ++ l2) = Ret true -> turns link p l1 = Ret true.
Proof.
  induction l1 as [|r l1 IH]; intros p H; [reflexivity|].
  cbn [app] in H. apply turns_true_cons in H.
  destruct H as (s & Hturn & Hrest).
  apply turns_true_cons. exists s. split; [exact Hturn|now apply IH].
Qed.

(** The turn that a verified ledger takes at a record in its middle. *)
Lemma turns_at (link : bool) (before : list dict) (rec : dict)
  (after : list dict) :
  forall p : string,
    turns link p (before ++ rec :: after) = Ret true ->
    exists prev s : string,
      expected_from p before (List.length before) = Some prev /\
      (forall l, turns link p (before ++ l) = turns link prev l) /\
      turn_of link prev rec = Next s /\
      turns link s after = Ret true.
Proof.
  intros p H.
  pose proof (turns_app_inv link before (rec :: after) p H) as Hb.
  destruct (turns_app link before p Hb) as (prev & Hprev & Happ).
  rewrite Happ in H. apply turns_true_cons in H.
  destruct H as (s & Hturn & Hrest).
  now exists prev, s.
Qed.

Lemma turn_stop_wrong_link (prev h p : string) (rec : dict) :
  stored_hash rec = Some h ->
  stored_prev rec = Some p ->
  p <> prev ->
  turn_of true prev rec = Stop.
Proof.
  intros Hh Hp Hne. unfold turn_of.
  unfold stored_hash in Hh. rewrite <- stored_prev_without_hash in Hp.
  destruct (dict_get "hash" rec) as [[| | | |stored| |]|]; try discriminate.
  destruct (negb (String.eqb (digest prev rec) stored)); [reflexivity|].
  destruct (dict_get "prev_hash" (dict_remove "hash" rec))
    as [[| | | |q| |]|]; try discriminate.
  injection Hp as ->. simpl.
  destruct (String.eqb_spec p prev); [contradiction|reflexivity].
Qed.

(** X2. Every prefix of a ledger that [verify_chain] accepts is accepted,
    in [db.py] and, on its own terms, in [E3.py]: records removed from
    the end are not missed. *)
Theorem truncated_ledger_verifies (recs : list dict) (n : nat) :
  (db_chain_ok recs = Ret true -> db_chain_ok (firstn n recs) = Ret true) /\
  (E3_chain_ok recs = Ret true -> E3_chain_ok (firstn n recs) = Ret true).
Proof.
  rewrite !db_chain_ok_values, !E3_chain_ok_values.
  split; apply turns_firstn.
Qed.

Lemma truncated_ledger_verifies_witness :
  db_chain_ok (firstn 1 [record_A; record_B]) = Ret true /\
  E3_chain_ok (firstn 1 [record_A; record_B_relinked]) = Ret true.
Proof.
  split.
  - apply (proj1 (truncated_ledger_verifies [record_A; record_B] 1)).
    vm_compute. reflexivity.
  - apply (proj2 (truncated_ledger_verifies
                    [record_A; record_B_relinked] 1)).
    vm_compute. reflexivity.
Defined.

(** X3. In a ledger that verifies, take out a record that is not the last
    and whose stored hash differs from its stored [prev_hash]: [db.py]'s
    [verify_chain] returns [False], at the record that followed it, by
    the comparison of the stored [prev_hash] if not by the hash, with no
    assumption on SHA-256. *)
Theorem deleted_record_detected
  (before : list dict) (rec next : dict) (after : list dict) :
  db_chain_ok (before ++ rec :: next :: after) = Ret true ->
  stored_hash rec <> stored_prev rec ->
  db_chain_ok (before ++ next :: after) = Ret false /\
  db_chain_ok before = Ret true /\
  db_chain_ok (before ++ [next]) = Ret false.
Proof.
  rewrite !db_chain_ok_values. intros H Hne.
  destruct (turns_at true before rec (next :: after) genesis H)
    as (prev & s & _ & Happ & Hturn & Hrest).
  apply turn_next_iff in Hturn. destruct Hturn as (Hs & _ & Hp).
  apply turns_true_cons in Hrest. destruct Hrest as (s2 & Hnext & _).
  apply turn_next_iff in Hnext. destruct Hnext as (Hs2 & _ & Hp2).
  assert (Hstop : turn_of true prev next = Stop).
  { apply (turn_stop_wrong_link prev s2 s next Hs2 Hp2).
    intros ->. apply Hne. now rewrite Hs, Hp. }
  rewrite !Happ. cbn [turns]. rewrite Hstop.
  repeat split. now apply (turns_app_inv true before (rec :: next :: after)).
Qed.

Lemma deleted_record_detected_witness :
  db_chain_ok ([] ++ record_B :: []) = Ret false /\
  db_chain_ok [] = Ret true /\
  db_chain_ok ([] ++ [record_B]) = Ret false.
Proof.
  apply (deleted_record_detected [] record_A record_B []).
  - vm_compute. reflexivity.
  - vm_compute. discriminate.
Defined.

(** X4. In a ledger that verifies, exchange two records that follow each
    other, the first with a stored hash that differs from its stored
    [prev_hash]: [db.py]'s [verify_chain] returns [False], at the first
    of the two positions, with no assumption on SHA-256. *)
Theorem swapped_records_detected
  (before : list dict) (r1 r2 : dict) (after : list dict) :
  db_chain_ok (before ++ r1 :: r2 :: after) = Ret true ->
  stored_hash r1 <> stored_prev r1 ->
  db_chain_ok (before ++ r2 :: r1 :: after) = Ret false /\
  db_chain_ok before = Ret true /\
  db_chain_ok (before ++ [r2]) = Ret false.
Proof.
  rewrite !db_chain_ok_values. intros H Hne.
  destruct (turns_at true before r1 (r2 :: after) genesis H)
    as (prev & s & _ & Happ & Hturn & Hrest).
  apply turn_next_iff in Hturn. destruct Hturn as (Hs & _ & Hp).
  apply turns_true_cons in Hrest. destruct Hrest as (s2 & Hnext & _).
  apply turn_next_iff in Hnext. destruct Hnext as (Hs2 & _ & Hp2).
  assert (Hstop : turn_of true prev r2 = Stop).
  { apply (turn_stop_wrong_link prev s2 s r2 Hs2 Hp2).
    intros ->. apply Hne. now rewrite Hs, Hp. }
  rewrite !Happ. cbn [turns]. rewrite Hstop.
  repeat split. now apply (turns_app_inv true before (r1 :: r2 :: after)).
Qed.

Lemma swapped_records_detected_witness :
  db_chain_ok ([] ++ record_B :: record_A :: []) = Ret false /\
  db_chain_ok [] = Ret true /\
  db_chain_ok ([] ++ [record_B]) = Ret false.
Proof.
  apply (swapped_records_detected [] record_A record_B []).
  - vm_compute. reflexivity.
  - vm_compute. discriminate.
Defined.

(** With every stored [prev_hash] in place, the hash check alone is as
    good as both. *)
Lemma turns_with_links (recs : list dict) :
  forall p : string,
    turns false p recs = Ret true ->
    (forall i rec, nth_error recs i = Some rec ->
                   stored_prev rec = expected_from p recs i) ->
    turns true p recs = Ret true.
Proof.
  induction recs as [|r rest IH]; intros p H Hlinks; [reflexivity|].
  apply turns_true_cons in H. destruct H as (s & Hturn & Hrest).
  apply turn_next_iff_hash_only in Hturn. destruct Hturn as (Hs & Hd).
  apply turns_true_cons. exists s. split.
  - apply turn_next_iff. repeat split; [exact Hs|exact Hd|].
    exact (Hlinks 0 r eq_refl).
  - apply IH; [exact Hrest|]. intros j rec Hrec.
    rewrite <- (expected_from_shift p s r rest j Hs).
    exact (Hlinks (S j) rec Hrec).
Qed.

(** X5. [db.py]'s [verify_chain] returns [True] exactly on the ledgers on
    which [E3.py]'s returns [True] and every stored [prev_hash] is the
    expected one: the genesis sentinel first, the stored hash of the
    record before afterwards. *)
Theorem two_checks_are_hash_check_and_links (recs : list dict) :
  db_chain_ok recs = Ret true <->
  E3_chain_ok recs = Ret true /\
  (forall (i : nat) (rec : dict),
      nth_error recs i = Some rec ->
      stored_prev rec = expected_prev recs i).
Proof.
  rewrite db_chain_ok_values, E3_chain_ok_values. split.
  - intros H. split; [now apply turns_link_weaker|].
    intros i rec Hrec.
    destruct (proj1 (turns_true_iff recs genesis) H i rec Hrec)
      as (prev & He & _ & Hp).
    unfold expected_prev. now rewrite He, Hp.
  - intros (H & Hlinks). now apply turns_with_links.
Qed.

(* ------------------------------------------------------------------ *)

Lemma turn_throw_iff (prev : string) (rec : dict) (e : exn) :
  turn_of true prev rec = Throw e <->
  (e = KeyError "hash" /\ dict_get "hash" rec = None) \/
  (e = KeyError "prev_hash" /\
   stored_hash rec = Some (digest prev rec) /\
   dict_get "prev_hash" rec = None).
Proof.
  unfold turn_of, stored_hash.
  rewrite <- (dict_get_remove_ne "prev_hash" "hash" rec) by discriminate.
  destruct (dict_get "hash" rec) as [[| | | |stored| |]|];
    try (split; [discriminate|intros [(_ & H)|(_ & H & _)]; discriminate]).
  - destruct (String.eqb_spec (digest prev rec) stored) as [He|Hne]; simpl.
    + destruct (dict_get "prev_hash" (dict_remove "hash" rec)) as [linked|].
      * split.
        -- destruct (Py.ne_str linked prev); discriminate.
        -- intros [(_ & H)|(_ & _ & H)]; discriminate.
      * split.
        -- intros H. injection H as <-. right. now rewrite He.
        -- intros [(_ & H)|(-> & _ & _)]; [discriminate|reflexivity].
    + split; [discriminate|].
      intros [(_ & H)|(_ & H & _)]; [discriminate|].
      injection H as ->. contradiction.
  - split.
    + intros H. injection H as <-. now left.
    + intros [(-> & _)|(_ & H & _)]; [reflexivity|discriminate].
Qed.

Lemma turns_raise_iff (recs : list dict) :
  forall (p : string) (e : exn),
    turns true p recs = Raise e <->
    exists (i : nat) (rec : dict) (prev : string),
      nth_error recs i = Some rec /\
      turns true p (firstn i recs) = Ret true /\
      expected_from p recs i = Some prev /\
      turn_of true prev rec = Throw e.
Proof.
  induction recs as [|r rest IH]; intros p e.
  - split; [discriminate|]. intros ([|i] & rec & prev & H & _); discriminate.
  - split.
    + intros H. cbn [turns] in H.
      destruct (turn_of true p r) as [s| |e'] eqn:Hturn; [|discriminate|].
      * apply IH in H. destruct H as (i & rec & prev & Hrec & Hpre & He & Ht).
        assert (Hs : stored_hash r = Some s)
          by now apply turn_next_iff in Hturn.
        exists (S i), rec, prev. repeat split.
        -- exact Hrec.
        -- cbn [firstn turns]. now rewrite Hturn.
        -- now rewrite (expected_from_shift p s r rest i Hs).
        -- exact Ht.
      * injection H as ->. exists 0, r, p. now repeat split.
    + intros ([|i] & rec & prev & Hrec & Hpre & He & Ht).
      * injection Hrec as <-. injection He as <-.
        cbn [turns]. now rewrite Ht.
      * cbn [firstn] in Hpre. apply turns_true_cons in Hpre.
        destruct Hpre as (s & Hturn & Hpre).
        assert (Hs : stored_hash r = Some s)
          by now apply turn_next_iff in Hturn.
        rewrite (expected_from_shift p s r rest i Hs) in He.
        cbn [turns]. rewrite Hturn. apply IH.
        now exists i, rec, prev.
Qed.

(** Every exception of the embedded loop, by the turn that throws
    it. *)
Lemma chain_raise_cases (recs : list dict) (e : exn) :
  db_chain_ok recs = Raise e <->
  exists (i : nat) (rec : dict),
    nth_error recs i = Some rec /\
    db_chain_ok (firstn i recs) = Ret true /\
    ((e = KeyError "hash" /\ dict_get "hash" rec = None) \/
     (e = KeyError "prev_hash" /\
      dict_get "prev_hash" rec = None /\
      exists prev : string,
        expected_prev recs i = Some prev /\
        stored_hash rec = Some (digest prev rec))).
Proof.
  rewrite db_chain_ok_values, turns_raise_iff. split.
  - intros (i & rec & prev & Hrec & Hpre & He & Ht).
    exists i, rec. rewrite db_chain_ok_values.
    split; [exact Hrec|]. split; [exact Hpre|].
    apply turn_throw_iff in Ht.
    destruct Ht as [(-> & Hno)|(-> & Hs & Hno)]; [now left|right].
    split; [reflexivity|]. split; [exact Hno|]. now exists prev.
  - intros (i & rec & Hrec & Hpre & Hcase).
    rewrite db_chain_ok_values in Hpre.
    assert (Hi : i < List.length recs)
      by (apply nth_error_Some; now rewrite Hrec).
    destruct (turns_app true (firstn i recs) genesis Hpre) as (q & Hq & _).
    rewrite length_firstn, Nat.min_l in Hq by lia.
    rewrite expected_from_firstn in Hq by lia.
    exists i, rec, q. split; [exact Hrec|]. split; [exact Hpre|].
    split; [exact Hq|]. apply turn_throw_iff.
    destruct Hcase as [(-> & Hno)|(-> & Hno & prev & He & Hs)]; [now left|].
    right. unfold expected_prev in He. rewrite Hq in He.
    injection He as <-. now repeat split.
Qed.

(** X6. On a ledger of JSON objects, [db.py]'s [verify_chain] raises
    [KeyError('hash')] exactly when the first record that does not pass,
    after records that all verify, has no [hash] key; and it raises
    [KeyError('prev_hash')] exactly when that record has a stored hash
    equal to the recomputed one and no [prev_hash] key. *)
Theorem verify_chain_key_errors (recs : list dict) :
  (db_chain_ok recs = Raise (KeyError "hash") <->
   exists (i : nat) (rec : dict),
     nth_error recs i = Some rec /\
     db_chain_ok (firstn i recs) = Ret true /\
     dict_get "hash" rec = None) /\
  (db_chain_ok recs = Raise (KeyError "prev_hash") <->
   exists (i : nat) (rec : dict) (prev : string),
     nth_error recs i = Some rec /\
     db_chain_ok (firstn i recs) = Ret true /\
     expected_prev recs i = Some prev /\
     stored_hash rec = Some (digest prev rec) /\
     dict_get "prev_hash" rec = None).
Proof.
  split; rewrite chain_raise_cases; split.
  - intros (i & rec & Hrec & Hpre & [(_ & Hno)|(E & _)]);
      [now exists i, rec|discriminate E].
  - intros (i & rec & Hrec & Hpre & Hno). exists i, rec.
    split; [exact Hrec|]. split; [exact Hpre|]. now left.
  - intros (i & rec & Hrec & Hpre & [(E & _)|(_ & Hno & prev & He & Hs)]);
      [discriminate E|now exists i, rec, prev].
  - intros (i & rec & prev & Hrec & Hpre & He & Hs & Hno). exists i, rec.
    split; [exact Hrec|]. split; [exact Hpre|]. right.
    split; [reflexivity|]. split; [exact Hno|]. now exists prev.
Qed.

Example raises_on_missing_prev_hash :
  db_chain_ok
    [record_A;
     dict_set "hash"
       (JStr (digest hash_A (dict_remove "prev_hash" record_B)))
       (dict_remove "prev_hash" record_B)]
  = Raise (KeyError "prev_hash").
Proof. vm_compute. reflexivity. Qed.

(* ------------------------------------------------------------------ *)

Lemma update_same_length (i : nat) (r : dict) :
  forall recs : list dict, List.length (update i r recs) = List.length recs.
Proof.
  induction i as [|i IH]; intros [|r0 rest]; simpl; try reflexivity.
  now rewrite IH.
Qed.



(* ------------------------------------------------------------------ *)

(** The loop from any starting hash, on freshly loaded records. *)
Lemma db_loop_run_values (p : string) (lines : list dict) :
  run (ledger_records <- load lines ;; db.verify_loop p ledger_records)
  = turns true p lines.
Proof.
  unfold run, bind. rewrite load_spec. simpl List.length.
  destruct (db_loop_values (seq 0 (List.length lines)) lines ([] ++ lines)
              p (held_seq [] lines)) as [extra He].
  now rewrite He.
Qed.

(** X8. Behind records that verify, the walk goes on from the stored hash
    of the last of them: verifying a ledger followed by more records is
    running the loop over those, started at that hash. *)
Theorem verification_continues_from_tail (verified more : list dict) :
  db_chain_ok verified = Ret true ->
  db_chain_ok (verified ++ more)
  = run (ledger_records <- load more ;;
         db.verify_loop (ledger_tail_hash verified) ledger_records).
Proof.
  rewrite db_loop_run_values, !db_chain_ok_values. intros H.
  destruct (turns_app true verified genesis H) as (q & Hq & Happ).
  rewrite Happ. f_equal. symmetry.
  unfold ledger_tail_hash. now apply expected_at_end.
Qed.

Lemma verification_continues_from_tail_witness :
  db_chain_ok ([record_A] ++ [record_B])
  = run (ledger_records <- load [record_B] ;;
         db.verify_loop (ledger_tail_hash [record_A]) ledger_records).
Proof.
  apply (verification_continues_from_tail [record_A] [record_B]).
  vm_compute. reflexivity.
Defined.

(* ------------------------------------------------------------------ *)

(** X9. The result of [verify_chain] is settled by what the dictionaries
    hold, not by which objects they are, and calling it again on the
    same list, in the store the first call left, gives the same result. *)
Theorem verify_chain_repeatable
  (h : store) (records : list loc) (recs : list dict) :
  held h records recs ->
  fst (db.verify_chain records h) = db_chain_ok recs /\
  fst (db.verify_chain records (snd (db.verify_chain records h)))
  = fst (db.verify_chain records h) /\
  fst (E3.verify_chain records h) = E3_chain_ok recs /\
  fst (E3.verify_chain records (snd (E3.verify_chain records h)))
  = fst (E3.verify_chain records h).
Proof.
  intros Hheld. unfold db.verify_chain, E3.verify_chain.
  rewrite db_chain_ok_values, E3_chain_ok_values.
  destruct (db_loop_values records recs h genesis Hheld) as [x Hx].
  destruct (E3_loop_values records recs h genesis Hheld) as [y Hy].
  rewrite Hx, Hy. cbn [fst snd].
  destruct (db_loop_values records recs (h ++ x) genesis
              (held_grow h x records recs Hheld)) as [x' Hx'].
  destruct (E3_loop_values records recs (h ++ y) genesis
              (held_grow h y records recs Hheld)) as [y' Hy'].
  rewrite Hx', Hy'. now repeat split.
Qed.

Lemma verify_chain_repeatable_witness :
  fst (db.verify_chain [0; 1; 0] [record_A; record_B])
  = db_chain_ok [record_A; record_B; record_A] /\
  fst (db.verify_chain [0; 1; 0]
         (snd (db.verify_chain [0; 1; 0] [record_A; record_B])))
  = fst (db.verify_chain [0; 1; 0] [record_A; record_B]) /\
  fst (E3.verify_chain [0; 1; 0] [record_A; record_B])
  = E3_chain_ok [record_A; record_B; record_A] /\
  fst (E3.verify_chain [0; 1; 0]
         (snd (E3.verify_chain [0; 1; 0] [record_A; record_B])))
  = fst (E3.verify_chain [0; 1; 0] [record_A; record_B]).
Proof.
  apply (verify_chain_repeatable [record_A; record_B] [0; 1; 0]
           [record_A; record_B; record_A]).
  repeat constructor.
Defined.

(* ------------------------------------------------------------------ *)

(** X11. In a ledger that verifies, a record put in before another one
    keeps [db.py]'s [verify_chain] from returning [True], unless the
    stored hash of that record is its own stored [prev_hash]. *)
Theorem inserted_record_detected
  (before : list dict) (inserted next : dict) (after : list dict) :
  db_chain_ok (before ++ next :: after) = Ret true ->
  stored_hash inserted <> stored_prev inserted ->
  db_chain_ok (before ++ inserted :: next :: after) <> Ret true.
Proof.
  rewrite !db_chain_ok_values. intros H0 Hne H.
  destruct (turns_at true before next after genesis H0)
    as (prev0 & s0 & Hprev0 & _ & Hturn0 & _).
  destruct (turns_at true before inserted (next :: after) genesis H)
    as (prev & s & Hprev & _ & Hturn & Hrest).
  rewrite Hprev0 in Hprev. injection Hprev as <-.
  apply turn_next_iff in Hturn0. destruct Hturn0 as (_ & _ & Hp0).
  apply turn_next_iff in Hturn. destruct Hturn as (Hs & _ & Hpx).
  apply turns_true_cons in Hrest. destruct Hrest as (s2 & Hnext & _).
  apply turn_next_iff in Hnext. destruct Hnext as (_ & _ & Hp).
  apply Hne. rewrite Hs, Hpx. congruence.
Qed.

Lemma inserted_record_detected_witness :
  db_chain_ok ([record_A] ++ record_A :: record_B :: []) <> Ret true.
Proof.
  apply (inserted_record_detected [record_A] record_A record_B []).
  - vm_compute. reflexivity.
  - vm_compute. discriminate.
Defined.
